(** * GenezioRateLimiter: a shallow embedding of the rate-limiting decorator

    The repository holds two versions of [GenezioRateLimiter]:
    - [src/src/index.ts]: the key is [sourceIp:minute], a missing context is
      a warning, errors of the store are swallowed ([Module IndexTs]);
    - [src/unnamed/part_000]: the key is [sourceIp:name:minute], it has the
      [refreshRate] option and a reconnect budget, and every error is thrown
      again ([Module Part000]).

    JavaScript is embedded as follows.
    - A [number] that the code uses as an integer ([limit], [refreshRate],
      [retryCount], counters, milliseconds) is a [Z]; fractional numbers and
      [NaN] are outside the model.
    - An exception is the [Throw] case of [Completion]; [try]/[catch] is
      [try_catch].
    - The wrapped function is [async]: its promise is fulfilled with the
      handler's result or rejected with the thrown error.  The model keeps
      the completion and leaves the promise out; the [await]s are sequenced
      in program order.  [wrapped] is one call run to its end; calls that
      overlap are described by the two halves of a call, before and from the
      increment.
    - What the code does to the outside (console, Redis, the handler) is
      recorded, in order, in a list of [Event]s.
    - Redis is the store protocol the code consumes: [GET], and an atomic
      [MULTI] of [INCR] and [EXPIRE], over integer counters with a deadline.
      The reply of [GET] is the counter itself rather than its decimal
      rendering: such a rendering is never the empty string (so it is truthy)
      and [parseInt] reads it back. *)

From Stdlib Require Import Ascii.
From stdpp Require Import gmap strings list pretty.

Local Open Scope Z_scope.

(** ** Errors and completions *)

(** The two members of [GenezioErrorCodes] ([@genezio/types]) the code names. *)
Inductive GenezioErrorCodes := BadRequest | RequestTimeout.

(** What can be thrown: a [GenezioError], the [TypeError] of a property read
    on [undefined] or [null], or an error of the Redis client (its [code],
    when it has one, is a Node errno string and never a Genezio code). *)
Inductive JsError :=
| GenezioError (message : string) (code : GenezioErrorCodes)
| TypeError (message : string)
| RedisError (message : string).

(** [(error as GenezioError).code] *)
Definition code (error : JsError) : option GenezioErrorCodes :=
  match error with
  | GenezioError _ c => Some c
  | _ => None
  end.

(** [(error as GenezioError).code === GenezioErrorCodes.RequestTimeout] *)
Definition isRequestTimeout (error : JsError) : bool :=
  match code error with
  | Some RequestTimeout => true
  | _ => false
  end.

Inductive Completion (A : Type) :=
| Normal (a : A)
| Throw (error : JsError).
Arguments Normal {A} a.
Arguments Throw {A} error.

(** ** Values passed to the wrapped function *)

(** [undefined] or [null]: what a property that is missing holds. *)
Inductive Nullish := Undefined | Null.

(** What the path [requestContext.http.sourceIp] finds in an object: no
    [requestContext], a [requestContext] without [http], or the address, as
    the template renders it. *)
Inductive RequestContext :=
| MissingRequestContext (held : Nullish)
| MissingHttp (held : Nullish)
| Http (sourceIp : string).

(** An object argument, as far as the code reads it: the truthiness of
    [isGnzContext], and [requestContext]. *)
Record JsObject := {
  isGnzContext : bool;
  requestContext : RequestContext
}.

(** [requestContext.http.sourceIp], when the path can be read. *)
Definition sourceIp (o : JsObject) : option string :=
  match requestContext o with
  | Http ip => Some ip
  | _ => None
  end.

Definition nullishText (held : Nullish) : string :=
  match held with
  | Undefined => "undefined"
  | Null => "null"
  end.

(** The TypeError of reading [property] of [undefined] or [null]. *)
Definition missingProperty (held : Nullish) (property : string) : JsError :=
  TypeError ("Cannot read properties of " +:+ nullishText held
             +:+ " (reading '" +:+ property +:+ "')").

Inductive JsValue :=
| JsUndefined
| JsNull
| JsPrimitive (text : string)
| JsObj (o : JsObject).

(** The decorator context; the code reads [_context.name] only, and renders
    it in a template, so it is a text here (a symbol is outside the model). *)
Record DecoratorContext := { name : string }.

(** The decorated method [value]: what it returns or throws on [args]. *)
Definition Handler := list JsValue → Completion JsValue.

(** ** Time *)

(** [new Date()]: milliseconds since the epoch, with the offset of the host's
    time zone at that instant, in minutes east of UTC. *)
Record Date := {
  epochMs : Z;
  tzMinutes : Z
}.

(** [date.getMinutes()]: the minute of the hour, in local time. *)
Definition getMinutes (date : Date) : Z :=
  (epochMs date / 60000 + tzMinutes date) mod 60.

(** The wall-clock minute an instant falls in (minutes since the epoch). *)
Definition calendarMinute (date : Date) : Z := epochMs date / 60000.

(** ** The store *)

(** A counter and the instant (ms) at which it expires, if any. *)
Record Entry := {
  count : Z;
  expiresAt : option Z
}.

Definition live (now : Z) (e : Entry) : bool :=
  match expiresAt e with
  | Some deadline => now <? deadline
  | None => true
  end.

(** [GET key] *)
Definition redis_get (now : Z) (key : string) (s : gmap string Entry) : option Z :=
  match s !! key with
  | Some e => if live now e then Some (count e) else None
  | None => None
  end.

(** [INCR key]: an absent or expired counter counts from 0 and has no
    deadline; a live one keeps its deadline. *)
Definition redis_incr (now : Z) (key : string) (s : gmap string Entry) : gmap string Entry :=
  match s !! key with
  | Some e =>
      if live now e
      then <[key := {| count := count e + 1; expiresAt := expiresAt e |}]> s
      else <[key := {| count := 1; expiresAt := None |}]> s
  | None => <[key := {| count := 1; expiresAt := None |}]> s
  end.

(** [EXPIRE key seconds]: a live counter gets the deadline [now + seconds];
    a timeout that is not positive deletes it. *)
Definition redis_expire (now : Z) (key : string) (seconds : Z) (s : gmap string Entry)
  : gmap string Entry :=
  match s !! key with
  | Some e =>
      if live now e
      then if seconds <=? 0
           then delete key s
           else <[key := {| count := count e; expiresAt := Some (now + seconds * 1000) |}]> s
      else s
  | None => s
  end.

(** ** Events and the monad of the embedding *)

Inductive Event :=
| ELog (message : string)                 (* console.log of a text *)
| ELogError (error : JsError)             (* console.log of a caught error *)
| EGet (key : string)                     (* redisClient.get(key) *)
| EMulti (incrKey expireKey : string) (seconds : Z)
                                          (* multi().incr(k).expire(k', s).exec() *)
| EDisconnect                             (* redisClient.disconnect() *)
| EInvoke (args : list JsValue).          (* func(...args) *)

Record Run (A : Type) := {
  outcome : Completion A;
  final : gmap string Entry;
  events : list Event
}.
Arguments outcome {A} r.
Arguments final {A} r.
Arguments events {A} r.

(** A computation reads and writes the store, records events, and completes
    normally or throws. *)
Definition M (A : Type) : Type := gmap string Entry → Run A.

#[global] Instance M_ret : MRet M := λ A a s,
  {| outcome := Normal a; final := s; events := [] |}.

#[global] Instance M_bind : MBind M := λ A B f m s,
  let r := m s in
  match outcome r with
  | Normal a =>
      let r' := f a (final r) in
      {| outcome := outcome r'; final := final r'; events := events r ++ events r' |}
  | Throw error =>
      {| outcome := Throw error; final := final r; events := events r |}
  end.

Definition throw {A} (error : JsError) : M A := λ s,
  {| outcome := Throw error; final := s; events := [] |}.

(** [try { body } catch (error) { handler }] *)
Definition try_catch {A} (body : M A) (handler : JsError → M A) : M A := λ s,
  let r := body s in
  match outcome r with
  | Normal a => r
  | Throw error =>
      let r' := handler error (final r) in
      {| outcome := outcome r'; final := final r'; events := events r ++ events r' |}
  end.

Definition emit (ev : Event) : M unit := λ s,
  {| outcome := Normal tt; final := s; events := [ev] |}.

Definition lift {A} (c : Completion A) : M A :=
  match c with
  | Normal a => mret a
  | Throw error => throw error
  end.

(** [if (b) { m }] *)
Definition when (b : bool) (m : M unit) : M unit := if b then m else mret tt.

Definition console_log (message : string) : M unit := emit (ELog message).

(** ** The Redis client *)

Record RedisClient := { url : string }.

(** What a request finds: the date [new Date()] gives, and whether the store
    fails the [GET] or the [EXEC] of this request.  The store serves both
    operations at that same instant. *)
Record Env := {
  date : Date;
  getFault : option JsError;
  execFault : option JsError
}.

(** [await redisClient.get(key)] *)
Definition client_get (env : Env) (key : string) : M (option Z) :=
  emit (EGet key);;
  match getFault env with
  | Some error => throw error
  | None => λ s,
      {| outcome := Normal (redis_get (epochMs (date env)) key s); final := s; events := [] |}
  end.

(** [await redisClient.multi().incr(k).expire(k', seconds).exec()] *)
Definition client_multi_incr_expire (env : Env) (incrKey expireKey : string) (seconds : Z)
  : M unit :=
  emit (EMulti incrKey expireKey seconds);;
  match execFault env with
  | Some error => throw error
  | None => λ s,
      let now := epochMs (date env) in
      {| outcome := Normal tt;
         final := redis_expire now expireKey seconds (redis_incr now incrKey s);
         events := [] |}
  end.

(** ** Pieces both versions share *)

(** [args[0].isGnzContext], as a truth value. *)
Definition read_isGnzContext (v : JsValue) : Completion bool :=
  match v with
  | JsUndefined => Throw (TypeError "Cannot read properties of undefined (reading 'isGnzContext')")
  | JsNull => Throw (TypeError "Cannot read properties of null (reading 'isGnzContext')")
  | JsPrimitive _ => Normal false
  | JsObj o => Normal (isGnzContext o)
  end.

(** [args.length === 0 || !args[0].isGnzContext] *)
Definition noGnzContext (args : list JsValue) : M bool :=
  match args with
  | [] => mret true
  | a :: _ => b ← lift (read_isGnzContext a); mret (negb b)
  end.

(** [args[0].requestContext.http.sourceIp], read after the check above:
    without [requestContext] the read of [http] throws, without [http] the
    read of [sourceIp] does. *)
Definition read_sourceIp (args : list JsValue) : M string :=
  match args with
  | JsObj o :: _ =>
      match requestContext o with
      | Http ip => mret ip
      | MissingHttp held => throw (missingProperty held "sourceIp")
      | MissingRequestContext held => throw (missingProperty held "http")
      end
  | _ => throw (TypeError "Cannot read properties of undefined (reading 'requestContext')")
  end.

(** [oldCount && parseInt(oldCount) >= threshold] *)
Definition limitReached (oldCount : option Z) (threshold : Z) : bool :=
  match oldCount with
  | Some n => threshold <=? n
  | None => false
  end.

(** [const func = value.bind(this); const result = func(...args); return result;] *)
Definition invoke (value : Handler) (args : list JsValue) : M JsValue :=
  emit (EInvoke args);; lift (value args).

Definition rateLimitExceeded : JsError :=
  GenezioError "Rate limit exceeded" RequestTimeout.

(** What the decorator factory returns: given the method and its decorator
    context, the [async function (...args)]; [Env] is what that call finds. *)
Definition Decorator : Type :=
  Handler → DecoratorContext → Env → list JsValue → M JsValue.

(** ** [src/src/index.ts] *)

Module IndexTs.

Record GenezioRateLimiterOptionsParameters := {
  dbUrl : option string;
  limit : option Z
}.

(** [_dict.dbUrl ? _dict.dbUrl : ""] *)
Definition dbUrlOrDefault (_dict : GenezioRateLimiterOptionsParameters) : string :=
  match dbUrl _dict with
  | Some u => if String.eqb u "" then "" else u
  | None => ""
  end.

(** [_dict.limit ? _dict.limit : 50] *)
Definition limitOrDefault (_dict : GenezioRateLimiterOptionsParameters) : Z :=
  match limit _dict with
  | Some l => if l =? 0 then 50 else l
  | None => 50
  end.

(** [retryStrategy: function () { return undefined; }] *)
Definition retryStrategy : option Z := None.

(** The template [`${args[0].requestContext.http.sourceIp}:${date.getMinutes()}`] *)
Definition key (ip : string) (date : Date) : string :=
  ip +:+ ":" +:+ pretty (getMinutes date).

(** [redisClient.get] and [redisClient.multi] on the variable the factory
    declared: it is still [undefined] when [new Redis] threw. *)
Definition useClient (redisClient : option RedisClient) : M RedisClient :=
  match redisClient with
  | Some client => mret client
  | None => throw (TypeError "Cannot read properties of undefined (reading 'get')")
  end.

Definition warning : string :=
  "Warning: the GenezioRateLimiter decorator must be used with the first parameter being a GnzContext object".

Definition redisHint : string :=
  "Error when opperating on the redis client. Remember to set the Redis dbUrl parameter in the GenezioRateLimiter decorator.".

Definition redisHintFactory : string :=
  "Error when opperating on the redis client. Remember to set the Redis dbUrl parameter in the RateLimiter decorator.".

(** Lines 35 to 69 of the [async function (...args)]: all it does before it
    calls the method. *)
Definition limiterGate (_dict : GenezioRateLimiterOptionsParameters)
    (redisClient : option RedisClient) (_context : DecoratorContext)
    (env : Env) (args : list JsValue) : M unit :=
  missing ← noGnzContext args;
  if missing : bool
  then console_log warning
  else
    try_catch
      (_ ← useClient redisClient;
       ip ← read_sourceIp args;
       oldCount ← client_get env (key ip (date env));
       when (limitReached oldCount (limitOrDefault _dict)) (throw rateLimitExceeded);;
       ip1 ← read_sourceIp args;
       ip2 ← read_sourceIp args;
       client_multi_incr_expire env (key ip1 (date env)) (key ip2 (date env)) 59)
      (λ error,
         when (isRequestTimeout error) (throw error);;
         console_log redisHint;;
         emit (ELogError error)).

(** The [async function (...args)] of lines 34 to 75. *)
Definition wrapped (_dict : GenezioRateLimiterOptionsParameters)
    (redisClient : option RedisClient) (value : Handler) (_context : DecoratorContext)
    (env : Env) (args : list JsValue) : M JsValue :=
  limiterGate _dict redisClient _context env args;;
  invoke value args.

(** [GenezioRateLimiter(_dict)]; [newRedis url] is what [new Redis(url, ...)]
    does: it returns the client or throws. *)
Definition GenezioRateLimiter (newRedis : string → Completion RedisClient)
    (_dict : GenezioRateLimiterOptionsParameters) : M Decorator :=
  redisClient ←
    try_catch
      (client ← lift (newRedis (dbUrlOrDefault _dict)); mret (Some client))
      (λ error, console_log redisHintFactory;; emit (ELogError error);; mret None);
  mret (λ value _context, wrapped _dict redisClient value _context).

End IndexTs.

(** ** [src/unnamed/part_000] *)

Module Part000.

Record GenezioRateLimiterOptionsParameters := {
  dbUrl : option string;
  limit : option Z;
  refreshRate : option Z
}.

(** [_dict.dbUrl ? _dict.dbUrl : "redis://localhost:6379"] *)
Definition dbUrlOrDefault (_dict : GenezioRateLimiterOptionsParameters) : string :=
  match dbUrl _dict with
  | Some u => if String.eqb u "" then "redis://localhost:6379" else u
  | None => "redis://localhost:6379"
  end.

(** [_dict.limit ? _dict.limit : 50] *)
Definition limitOrDefault (_dict : GenezioRateLimiterOptionsParameters) : Z :=
  match limit _dict with
  | Some l => if l =? 0 then 50 else l
  | None => 50
  end.

(** [_dict.refreshRate ? _dict.refreshRate : 59] *)
Definition refreshRateOrDefault (_dict : GenezioRateLimiterOptionsParameters) : Z :=
  match refreshRate _dict with
  | Some r => if r =? 0 then 59 else r
  | None => 59
  end.

(** [_dict.refreshRate && _dict.refreshRate < 1] *)
Definition refreshRateBelowOne (_dict : GenezioRateLimiterOptionsParameters) : bool :=
  match refreshRate _dict with
  | Some r => negb (r =? 0) && (r <? 1)
  | None => false
  end.

(** *** The connection: [retryCount] and the two callbacks that share it *)

Record Connector := {
  retryCount : Z;
  disconnected : bool
}.

(** [let retryCount = 0;] *)
Definition connector0 : Connector := {| retryCount := 0; disconnected := false |}.

(** [retryStrategy]: the delay (ms) before the next reconnect, or [None]
    ([undefined]) to stop reconnecting. *)
Definition retryStrategy (c : Connector) : option Z :=
  if 5 <? retryCount c then None else Some 1000.

(** [String(error)], as the concatenation in the callback renders it. *)
Definition errorText (error : JsError) : string :=
  match error with
  | GenezioError m _ => "GenezioError: " +:+ m
  | TypeError m => "TypeError: " +:+ m
  | RedisError m => "Error: " +:+ m
  end.

Definition stoppingPolling : string :=
  "Could not connect to the Redis database after 5 retries. Stopping polling.".

(** [redisClient.on("error", function (error) {...})] *)
Definition onError (error : JsError) (c : Connector)
  : Completion unit * Connector * list Event :=
  let log1 := ELog ("Could not connect to the Redis database. " +:+ errorText error) in
  let n := retryCount c + 1 in
  if 5 <? n
  then (Throw error, {| retryCount := n; disconnected := true |},
        [log1; ELog stoppingPolling; EDisconnect])
  else (Normal tt, {| retryCount := n; disconnected := disconnected c |}, [log1]).

(** [redisClient.on("reconnecting", function () {...})] *)
Definition onReconnecting (c : Connector) : Completion unit * Connector * list Event :=
  (Normal tt, c, [ELog "Trying to reconnect to the Redis database..."]).

(** The connector after the client has emitted the error events [errors],
    in this order. *)
Definition afterErrors (errors : list JsError) (c : Connector) : Connector :=
  foldl (λ c error, (onError error c).1.2) c errors.

(** *** The wrapped function *)

(** The template
    [`${args[0].requestContext.http.sourceIp}:${_context.name}:${date.getMinutes()}`] *)
Definition key (ip : string) (name : string) (date : Date) : string :=
  ip +:+ ":" +:+ name +:+ ":" +:+ pretty (getMinutes date).

Definition contextError : string :=
  "Error: the GenezioRateLimiter decorator must be used with the first parameter being a GnzContext object".

Definition redisHint : string :=
  "Error when operating on the redis client. Remember to set the Redis dbUrl parameter in the GenezioRateLimiter decorator.".

Definition refreshRateError : JsError :=
  GenezioError "The refresh rate must be at least 1 second" BadRequest.

(** Lines 58 to 108 of the [async function (...args)]: all it does before it
    calls the method. *)
Definition limiterGate (_dict : GenezioRateLimiterOptionsParameters)
    (redisClient : RedisClient) (_context : DecoratorContext)
    (env : Env) (args : list JsValue) : M unit :=
  missing ← noGnzContext args;
  when missing
    (console_log contextError;;
     throw (GenezioError contextError BadRequest));;
  try_catch
    (ip ← read_sourceIp args;
     oldCount ← client_get env (key ip (name _context) (date env));
     when (limitReached oldCount (limitOrDefault _dict)) (throw rateLimitExceeded);;
     when (refreshRateBelowOne _dict) (throw refreshRateError);;
     ip1 ← read_sourceIp args;
     ip2 ← read_sourceIp args;
     client_multi_incr_expire env
       (key ip1 (name _context) (date env))
       (key ip2 (name _context) (date env))
       (refreshRateOrDefault _dict))
    (λ error,
       when (negb (isRequestTimeout error)) (console_log redisHint);;
       throw error).

(** The [async function (...args)] of lines 57 to 114. *)
Definition wrapped (_dict : GenezioRateLimiterOptionsParameters)
    (redisClient : RedisClient) (value : Handler) (_context : DecoratorContext)
    (env : Env) (args : list JsValue) : M JsValue :=
  limiterGate _dict redisClient _context env args;;
  invoke value args.

(** [GenezioRateLimiter(_dict)]; [newRedis url] is what [new Redis(url, ...)]
    does: it returns the client or throws.  Registering the two callbacks
    does nothing by itself. *)
Definition GenezioRateLimiter (newRedis : string → Completion RedisClient)
    (_dict : GenezioRateLimiterOptionsParameters) : M Decorator :=
  redisClient ←
    try_catch
      (lift (newRedis (dbUrlOrDefault _dict)))
      (λ error, console_log redisHint;; throw error);
  mret (λ value _context, wrapped _dict redisClient value _context).

End Part000.

(** ** What is observed of a run *)

(** The argument lists the method was called with, in order. *)
Definition invocations (tr : list Event) : list (list JsValue) :=
  omap (λ ev, match ev with EInvoke args => Some args | _ => None end) tr.

(** The calls made to the store, in order. *)
Definition storeOps (tr : list Event) : list Event :=
  List.filter (λ ev, match ev with EGet _ | EMulti _ _ _ => true | _ => false end) tr.

(** A request is admitted when the method ran exactly once, on the original
    arguments, and its completion is the completion of the call. *)
Definition admitted (value : Handler) (args : list JsValue) (r : Run JsValue) : Prop :=
  invocations (events r) = [args] ∧ outcome r = value args.

(** A request is rejected with [error] when the method never ran and [error]
    is thrown to the caller. *)
Definition rejectedWith (error : JsError) (r : Run JsValue) : Prop :=
  invocations (events r) = [] ∧ outcome r = Throw error.

(** A first argument that is a GnzContext carrying the address [ip]. *)
Definition gnzContextArgs (ip : string) (args : list JsValue) : Prop :=
  ∃ o rest, args = JsObj o :: rest ∧ isGnzContext o = true ∧ sourceIp o = Some ip.

(** No argument, or a first argument (not [undefined], not [null]) whose
    [isGnzContext] is falsy. *)
Definition lacksGnzContext (args : list JsValue) : Prop :=
  args = [] ∨ ∃ v rest, args = v :: rest ∧ read_isGnzContext v = Normal false.

(** A request on a store that answers. *)
Definition healthy (date : Date) : Env :=
  {| date := date; getFault := None; execFault := None |}.

(** Requests served one after the other, each on the store the previous one
    left. *)
Fixpoint serve {A} (requests : list (M A)) (s : gmap string Entry) : list (Run A) :=
  match requests with
  | [] => []
  | m :: ms => let r := m s in r :: serve ms (final r)
  end.

(** Instants in order, each less than [gap] ms after the one before. *)
Fixpoint spaced (gap : Z) (times : list Z) : Prop :=
  match times with
  | t :: ((t' :: _) as rest) => (t ≤ t' < t + gap) ∧ spaced gap rest
  | _ => True
  end.

(** All of [dates] lie in the calendar minute [minute], on a host whose
    offset is [tz]. *)
Definition sameWindow (minute tz : Z) (dates : list Date) : Prop :=
  Forall (λ d, calendarMinute d = minute ∧ tzMinutes d = tz) dates.

(** The counter a request at [now] finds under [key]: 0 when there is none. *)
Definition countAt (now : Z) (key : string) (s : gmap string Entry) : Z :=
  default 0 (redis_get now key s).

(** No [":"] in a text. *)
Fixpoint colonFree (s : string) : bool :=
  match s with
  | EmptyString => true
  | String a rest => negb (Ascii.eqb a ":"%char) && colonFree rest
  end.

(** The store fails the request with [error]: at the read, or at the
    increment and expire of a request that got as far as that. *)
Definition storeFails (env : Env) (error : JsError) (reachesExec : bool) : Prop :=
  getFault env = Some error
  ∨ (getFault env = None ∧ reachesExec = true ∧ execFault env = Some error).

(** ** Sample inputs *)

Module Sample.

Definition ip : string := "203.0.113.7".

Definition context : JsValue :=
  JsObj {| isGnzContext := true; requestContext := Http ip |}.

Definition args : list JsValue := [context; JsPrimitive "42"].

(** A method that returns normally. *)
Definition method : Handler := λ _, Normal (JsPrimitive "done").

Definition hello : DecoratorContext := {| name := "hello" |}.

Definition client : RedisClient := {| url := "redis://localhost:6379" |}.

(** An instant, on a host on UTC. *)
Definition utc (ms : Z) : Date := {| epochMs := ms; tzMinutes := 0 |}.

Definition connectionLost : JsError := RedisError "Connection is closed.".

(** A request on a store that cannot be reached. *)
Definition unreachable (date : Date) : Env :=
  {| date := date; getFault := Some connectionLost; execFault := Some connectionLost |}.

(** [new Redis(...)] throwing. *)
Definition failingRedis : string → Completion RedisClient :=
  λ _, Throw (RedisError "Invalid argument").

Definition defaults : Part000.GenezioRateLimiterOptionsParameters :=
  {| Part000.dbUrl := None; Part000.limit := None; Part000.refreshRate := None |}.

Definition defaultsIndexTs : IndexTs.GenezioRateLimiterOptionsParameters :=
  {| IndexTs.dbUrl := None; IndexTs.limit := None |}.

Definition withLimit (l : Z) : Part000.GenezioRateLimiterOptionsParameters :=
  {| Part000.dbUrl := None; Part000.limit := Some l; Part000.refreshRate := None |}.

Definition withLimitIndexTs (l : Z) : IndexTs.GenezioRateLimiterOptionsParameters :=
  {| IndexTs.dbUrl := None; IndexTs.limit := Some l |}.

Definition withRefreshRate (r : Z) : Part000.GenezioRateLimiterOptionsParameters :=
  {| Part000.dbUrl := None; Part000.limit := None; Part000.refreshRate := Some r |}.

End Sample.

(** The events the [catch] block of [part_000] adds for [error]. *)
Definition part000_catch_log (error : JsError) : list Event :=
  if isRequestTimeout error then [] else [ELog Part000.redisHint].

(** Unfolds the embedding of the two functions down to the store operations,
    leaving keys and store operations folded. *)
Ltac run :=
  cbv [Part000.wrapped Part000.limiterGate
       IndexTs.wrapped IndexTs.limiterGate IndexTs.useClient
       mbind M_bind mret M_ret try_catch noGnzContext lift read_isGnzContext
       read_sourceIp client_get client_multi_incr_expire emit when invoke throw
       console_log outcome final events app healthy date getFault execFault
       isGnzContext requestContext missingProperty negb isRequestTimeout code
       rateLimitExceeded
       Part000.refreshRateError].

(** The same for the factories, leaving the wrapped function folded. *)
Ltac run_factory :=
  cbv [mbind M_bind mret M_ret try_catch lift throw console_log emit
       outcome final events app].

(** ** The events of the client *)

(** What the Redis client emits to the two listeners [part_000] registers. *)
Inductive ClientEvent :=
| ErrorEvent (error : JsError)
| ReconnectingEvent.

(** The listener an event runs. *)
Definition deliver (ev : ClientEvent) (c : Part000.Connector)
  : Completion unit * Part000.Connector * list Event :=
  match ev with
  | ErrorEvent error => Part000.onError error c
  | ReconnectingEvent => Part000.onReconnecting c
  end.

(** The connector after the client has emitted [evs], in this order. *)
Definition afterEvents (evs : list ClientEvent) (c : Part000.Connector)
  : Part000.Connector :=
  foldl (λ c ev, (deliver ev c).1.2) c evs.

(** The errors among the events. *)
Definition errorsOf (evs : list ClientEvent) : list JsError :=
  omap (λ ev, match ev with ErrorEvent error => Some error | ReconnectingEvent => None end)
    evs.

(** The store a list of requests, served one after the other, leaves. *)
Fixpoint storeAfter {A} (requests : list (M A)) (s : gmap string Entry)
  : gmap string Entry :=
  match requests with
  | [] => s
  | m :: ms => storeAfter ms (final (m s))
  end.

(** The requests of one identity at [dates], on a store that answers. *)
Definition part000Requests (_dict : Part000.GenezioRateLimiterOptionsParameters)
    (client : RedisClient) (value : Handler) (_context : DecoratorContext)
    (args : list JsValue) (dates : list Date) : list (M JsValue) :=
  (λ d, Part000.wrapped _dict client value _context (healthy d) args) <$> dates.

Definition indexTsRequests (_dict : IndexTs.GenezioRateLimiterOptionsParameters)
    (client : RedisClient) (value : Handler) (_context : DecoratorContext)
    (args : list JsValue) (dates : list Date) : list (M JsValue) :=
  (λ d, IndexTs.wrapped _dict (Some client) value _context (healthy d) args) <$> dates.



(** ** A call in two halves *)

(** The wrapped function waits twice for the store: for the reply of the
    [GET] and for the reply of the [EXEC].  Between the two it only compares
    numbers, so another call can reach the store after the [GET] of this one
    and before its increment.  The first half is the call up to the point
    where it sends the increment, the second half is the rest. *)

(** [part_000], lines 58 to 84, with the [catch] of lines 100 to 108. *)
Definition part000BeforeIncrement (_dict : Part000.GenezioRateLimiterOptionsParameters)
    (_context : DecoratorContext) (env : Env) (args : list JsValue) : M unit :=
  missing ← noGnzContext args;
  when missing
    (console_log Part000.contextError;;
     throw (GenezioError Part000.contextError BadRequest));;
  try_catch
    (ip ← read_sourceIp args;
     oldCount ← client_get env (Part000.key ip (name _context) (date env));
     when (limitReached oldCount (Part000.limitOrDefault _dict)) (throw rateLimitExceeded);;
     when (Part000.refreshRateBelowOne _dict) (throw Part000.refreshRateError))
    (λ error,
       when (negb (isRequestTimeout error)) (console_log Part000.redisHint);;
       throw error).

(** [part_000], lines 85 to 99, with the same [catch], and lines 110 to 113. *)
Definition part000FromIncrement (_dict : Part000.GenezioRateLimiterOptionsParameters)
    (value : Handler) (_context : DecoratorContext) (env : Env) (args : list JsValue)
  : M JsValue :=
  try_catch
    (ip1 ← read_sourceIp args;
     ip2 ← read_sourceIp args;
     client_multi_incr_expire env
       (Part000.key ip1 (name _context) (date env))
       (Part000.key ip2 (name _context) (date env))
       (Part000.refreshRateOrDefault _dict))
    (λ error,
       when (negb (isRequestTimeout error)) (console_log Part000.redisHint);;
       throw error);;
  invoke value args.

(** [index.ts], lines 35 to 52, with the [catch] of lines 59 to 68: the
    answer tells whether the call goes on to the increment (it does not
    after the warning, nor after an error that was swallowed). *)
Definition indexTsBeforeIncrement (_dict : IndexTs.GenezioRateLimiterOptionsParameters)
    (redisClient : option RedisClient) (env : Env) (args : list JsValue) : M bool :=
  missing ← noGnzContext args;
  if missing : bool
  then console_log IndexTs.warning;; mret false
  else
    try_catch
      (_ ← IndexTs.useClient redisClient;
       ip ← read_sourceIp args;
       oldCount ← client_get env (IndexTs.key ip (date env));
       when (limitReached oldCount (IndexTs.limitOrDefault _dict)) (throw rateLimitExceeded);;
       mret true)
      (λ error,
         when (isRequestTimeout error) (throw error);;
         console_log IndexTs.redisHint;;
         emit (ELogError error);;
         mret false).

(** [index.ts], lines 53 to 58, with the same [catch], and lines 71 to 74. *)
Definition indexTsFromIncrement (value : Handler) (env : Env) (args : list JsValue)
    (goesOn : bool) : M JsValue :=
  (if goesOn
   then
     try_catch
       (ip1 ← read_sourceIp args;
        ip2 ← read_sourceIp args;
        client_multi_incr_expire env (IndexTs.key ip1 (date env))
          (IndexTs.key ip2 (date env)) 59)
       (λ error,
          when (isRequestTimeout error) (throw error);;
          console_log IndexTs.redisHint;;
          emit (ELogError error))
   else mret tt);;
  invoke value args.

(** Unfolds the halves as well. *)
Ltac run_halves :=
  cbv [part000BeforeIncrement part000FromIncrement
       indexTsBeforeIncrement indexTsFromIncrement];
  run.

(** * Properties *)

(** ** The store *)

Lemma redis_incr_other now k k' s : k ≠ k' → redis_incr now k s !! k' = s !! k'.
Proof.
  intros Hne. unfold redis_incr.
  destruct (s !! k) as [e|]; [destruct (live now e)|]; by rewrite lookup_insert_ne.
Qed.

Lemma redis_expire_other now k k' seconds s :
  k ≠ k' → redis_expire now k seconds s !! k' = s !! k'.
Proof.
  intros Hne. unfold redis_expire.
  destruct (s !! k) as [e|]; [|done].
  destruct (live now e); [|done].
  destruct (seconds <=? 0); [by rewrite lookup_delete_ne|by rewrite lookup_insert_ne].
Qed.

(** After the atomic increment and expire, the counter is one more than what
    [GET] answered, for as long as its deadline has not passed. *)
Lemma redis_get_incr_expire now now' k ttl s :
  0 < ttl → now ≤ now' → now' < now + ttl * 1000 →
  redis_get now' k (redis_expire now k ttl (redis_incr now k s)) = Some (countAt now k s + 1).
Proof.
  intros Httl Hle Hlt. unfold countAt, redis_get, redis_expire, redis_incr.
  assert ((ttl <=? 0) = false) as Hpos by lia.
  assert ((now' <? now + ttl * 1000) = true) as Hlive by lia.
  destruct (s !! k) as [e|] eqn:Hk; [destruct (live now e) eqn:He|];
    rewrite !lookup_insert_eq; unfold live in *; simpl; rewrite ?He, Hpos;
    rewrite lookup_insert_eq; simpl; rewrite Hlive; done.
Qed.

(** Once the deadline has passed the counter is gone. *)
Lemma redis_get_expired now now' k ttl s :
  0 < ttl → now + ttl * 1000 ≤ now' →
  redis_get now' k (redis_expire now k ttl (redis_incr now k s)) = None.
Proof.
  intros Httl Hle. unfold redis_get, redis_expire, redis_incr.
  assert ((ttl <=? 0) = false) as Hpos by lia.
  assert ((now' <? now + ttl * 1000) = false) as Hdead by lia.
  destruct (s !! k) as [e|] eqn:Hk; [destruct (live now e) eqn:He|];
    rewrite !lookup_insert_eq; unfold live in *; simpl; rewrite ?He, Hpos;
    rewrite lookup_insert_eq; simpl; rewrite Hdead; done.
Qed.

Lemma limitReached_countAt now k s threshold :
  1 ≤ threshold →
  limitReached (redis_get now k s) threshold = bool_decide (threshold ≤ countAt now k s).
Proof.
  intros Hpos. unfold limitReached, countAt.
  destruct (redis_get now k s) as [n|]; simpl.
  - destruct (Z.leb_spec threshold n); [by rewrite bool_decide_eq_true_2|by rewrite bool_decide_eq_false_2; [|lia]].
  - rewrite bool_decide_eq_false_2; [done|lia].
Qed.

(** ** The gate, case by case *)

(** The wrapped function is its gate followed by the call of the method. *)
Lemma Part000_wrapped_gate _dict client value _context env args s :
  Part000.wrapped _dict client value _context env args s =
  let g := Part000.limiterGate _dict client _context env args s in
  match outcome g with
  | Normal _ =>
      {| outcome := value args; final := final g; events := events g ++ [EInvoke args] |}
  | Throw error =>
      {| outcome := Throw error; final := final g; events := events g |}
  end.
Proof.
  unfold Part000.wrapped. cbv [mbind M_bind invoke emit lift]. cbv zeta.
  destruct (outcome _); [|done].
  cbv [outcome final events]. destruct (value args); reflexivity.
Qed.

Lemma IndexTs_wrapped_gate _dict client value _context env args s :
  IndexTs.wrapped _dict client value _context env args s =
  let g := IndexTs.limiterGate _dict client _context env args s in
  match outcome g with
  | Normal _ =>
      {| outcome := value args; final := final g; events := events g ++ [EInvoke args] |}
  | Throw error =>
      {| outcome := Throw error; final := final g; events := events g |}
  end.
Proof.
  unfold IndexTs.wrapped. cbv [mbind M_bind invoke emit lift]. cbv zeta.
  destruct (outcome _); [|done].
  cbv [outcome final events]. destruct (value args); reflexivity.
Qed.

(** The gate of [part_000] on a GnzContext, case by case. *)
Lemma Part000_gate_context _dict client _context env args ip s :
  gnzContextArgs ip args →
  let k := Part000.key ip (name _context) (date env) in
  let ttl := Part000.refreshRateOrDefault _dict in
  Part000.limiterGate _dict client _context env args s =
  match getFault env with
  | Some error =>
      {| outcome := Throw error; final := s; events := EGet k :: part000_catch_log error |}
  | None =>
      if limitReached (redis_get (epochMs (date env)) k s) (Part000.limitOrDefault _dict)
      then {| outcome := Throw rateLimitExceeded; final := s; events := [EGet k] |}
      else if Part000.refreshRateBelowOne _dict
      then {| outcome := Throw Part000.refreshRateError; final := s;
              events := [EGet k; ELog Part000.redisHint] |}
      else match execFault env with
           | Some error =>
               {| outcome := Throw error; final := s;
                  events := EGet k :: EMulti k k ttl :: part000_catch_log error |}
           | None =>
               {| outcome := Normal tt;
                  final := redis_expire (epochMs (date env)) k ttl
                             (redis_incr (epochMs (date env)) k s);
                  events := [EGet k; EMulti k k ttl] |}
           end
  end.
Proof.
  intros ([g [held|held|ip']] & rest & -> & Hg & Hip);
    unfold sourceIp in Hip; simplify_eq/=.
  destruct env as [d [ge|] ee]; cbv zeta; unfold part000_catch_log.
  { run. destruct ge as [? []| |]; reflexivity. }
  run.
  destruct (limitReached _ _); [reflexivity|].
  destruct (Part000.refreshRateBelowOne _dict); [reflexivity|].
  destruct ee as [[? []| |]|]; reflexivity.
Qed.

(** The gate of [index.ts] on a GnzContext, case by case. *)
Lemma IndexTs_gate_context _dict redisClient _context env args ip s :
  gnzContextArgs ip args →
  let k := IndexTs.key ip (date env) in
  IndexTs.limiterGate _dict redisClient _context env args s =
  match redisClient with
  | None =>
      {| outcome := Normal tt; final := s;
         events := [ELog IndexTs.redisHint;
                    ELogError (TypeError "Cannot read properties of undefined (reading 'get')")] |}
  | Some _ =>
      match getFault env with
      | Some error =>
          if isRequestTimeout error
          then {| outcome := Throw error; final := s; events := [EGet k] |}
          else {| outcome := Normal tt; final := s;
                  events := [EGet k; ELog IndexTs.redisHint; ELogError error] |}
      | None =>
          if limitReached (redis_get (epochMs (date env)) k s) (IndexTs.limitOrDefault _dict)
          then {| outcome := Throw rateLimitExceeded; final := s; events := [EGet k] |}
          else match execFault env with
               | Some error =>
                   if isRequestTimeout error
                   then {| outcome := Throw error; final := s;
                           events := [EGet k; EMulti k k 59] |}
                   else {| outcome := Normal tt; final := s;
                           events := [EGet k; EMulti k k 59;
                                      ELog IndexTs.redisHint; ELogError error] |}
               | None =>
                   {| outcome := Normal tt;
                      final := redis_expire (epochMs (date env)) k 59
                                 (redis_incr (epochMs (date env)) k s);
                      events := [EGet k; EMulti k k 59] |}
               end
      end
  end.
Proof.
  intros ([g [held|held|ip']] & rest & -> & Hg & Hip);
    unfold sourceIp in Hip; simplify_eq/=.
  destruct redisClient as [client|]; [|run; reflexivity].
  destruct env as [d [ge|] ee]; cbv zeta.
  { run. destruct ge as [? []| |]; reflexivity. }
  run.
  destruct (limitReached _ _); [reflexivity|].
  destruct ee as [[? []| |]|]; reflexivity.
Qed.

(** Without a GnzContext [part_000] throws before anything else. *)
Lemma Part000_gate_no_context _dict client _context env args s :
  lacksGnzContext args →
  Part000.limiterGate _dict client _context env args s =
  {| outcome := Throw (GenezioError Part000.contextError BadRequest);
     final := s;
     events := [ELog Part000.contextError] |}.
Proof.
  intros [->|(v & rest & -> & Hv)]; [run; reflexivity|].
  destruct v as [| | |[[] ?]]; simplify_eq/=; run; reflexivity.
Qed.

(** Without a GnzContext [index.ts] warns and lets the request through. *)
Lemma IndexTs_gate_no_context _dict redisClient _context env args s :
  lacksGnzContext args →
  IndexTs.limiterGate _dict redisClient _context env args s =
  {| outcome := Normal tt; final := s; events := [ELog IndexTs.warning] |}.
Proof.
  intros [->|(v & rest & -> & Hv)]; [run; reflexivity|].
  destruct v as [| | |[[] ?]]; simplify_eq/=; run; reflexivity.
Qed.

(** The gates never call the method. *)
Lemma Part000_gate_invocations _dict client _context env args s :
  invocations (events (Part000.limiterGate _dict client _context env args s)) = [].
Proof.
  destruct args as [|[| | |[[] [held|held|ip]]] rest].
  - rewrite Part000_gate_no_context; [reflexivity|by left].
  - run. reflexivity.
  - run. reflexivity.
  - rewrite Part000_gate_no_context; [reflexivity|right; by eexists _, _].
  - run. reflexivity.
  - run. reflexivity.
  - rewrite (Part000_gate_context _ _ _ _ _ ip); [|by eexists _, _].
    cbv zeta. unfold part000_catch_log.
    repeat case_match; reflexivity.
  - rewrite Part000_gate_no_context; [reflexivity|right; by eexists _, _].
  - rewrite Part000_gate_no_context; [reflexivity|right; by eexists _, _].
  - rewrite Part000_gate_no_context; [reflexivity|right; by eexists _, _].
Qed.

Lemma IndexTs_gate_invocations _dict redisClient _context env args s :
  invocations (events (IndexTs.limiterGate _dict redisClient _context env args s)) = [].
Proof.
  destruct args as [|[| | |[[] [held|held|ip]]] rest].
  - rewrite IndexTs_gate_no_context; [reflexivity|by left].
  - run. reflexivity.
  - run. reflexivity.
  - rewrite IndexTs_gate_no_context; [reflexivity|right; by eexists _, _].
  - destruct redisClient; run; reflexivity.
  - destruct redisClient; run; reflexivity.
  - rewrite (IndexTs_gate_context _ _ _ _ _ ip); [|by eexists _, _].
    cbv zeta. repeat case_match; reflexivity.
  - rewrite IndexTs_gate_no_context; [reflexivity|right; by eexists _, _].
  - rewrite IndexTs_gate_no_context; [reflexivity|right; by eexists _, _].
  - rewrite IndexTs_gate_no_context; [reflexivity|right; by eexists _, _].
Qed.

Lemma invocations_app tr tr' : invocations (tr ++ tr') = invocations tr ++ invocations tr'.
Proof. unfold invocations. apply omap_app. Qed.

(** ** The reconnect budget *)

Lemma afterErrors_cons error errors c :
  Part000.afterErrors (error :: errors) c =
  Part000.afterErrors errors (Part000.onError error c).1.2.
Proof. reflexivity. Qed.

Lemma afterErrors_app errors more c :
  Part000.afterErrors (errors ++ more) c =
  Part000.afterErrors more (Part000.afterErrors errors c).
Proof. unfold Part000.afterErrors. apply foldl_app. Qed.

Lemma afterErrors_retryCount errors : ∀ c,
  Part000.retryCount (Part000.afterErrors errors c) =
  Part000.retryCount c + Z.of_nat (length errors).
Proof.
  induction errors as [|error errors IH]; intros c.
  - simpl. lia.
  - rewrite afterErrors_cons, IH. unfold Part000.onError. cbv zeta.
    destruct (5 <? Part000.retryCount c + 1); simpl; lia.
Qed.

(** The client has been disconnected exactly when the count is above 5. *)
Lemma afterErrors_disconnected errors : ∀ c,
  Part000.disconnected c = bool_decide (5 < Part000.retryCount c) →
  Part000.disconnected (Part000.afterErrors errors c) =
  bool_decide (5 < Part000.retryCount c + Z.of_nat (length errors)).
Proof.
  induction errors as [|error errors IH]; intros c Hc.
  - simpl. rewrite Hc. f_equal. apply bool_decide_ext. lia.
  - rewrite afterErrors_cons, IH.
    + apply bool_decide_ext. unfold Part000.onError. cbv zeta.
      destruct (5 <? Part000.retryCount c + 1); simpl; lia.
    + unfold Part000.onError. cbv zeta.
      destruct (Z.ltb_spec 5 (Part000.retryCount c + 1)); simpl.
      * by rewrite bool_decide_eq_true_2.
      * rewrite Hc. apply bool_decide_ext. lia.
Qed.

(** C8: the retry strategy answers the fixed delay of 1000 ms as long as at
    most 5 error events have been counted; once more than 5 have been, it
    answers [undefined] whatever happens later, so no reconnect is scheduled
    any more.  The error event that takes the count above 5 logs that polling
    stops, calls [redisClient.disconnect()] and throws the error; from then
    on the client stays disconnected. *)
Theorem reconnect_budget_of_five (errors more : list JsError) (error : JsError) :
  let c := Part000.afterErrors errors Part000.connector0 in
  ((length errors ≤ 5)%nat → Part000.retryStrategy c = Some 1000)
  ∧ ((5 < length errors)%nat →
       Part000.retryStrategy (Part000.afterErrors more c) = None
       ∧ Part000.disconnected (Part000.afterErrors more c) = true)
  ∧ (length errors = 5%nat →
       Part000.onError error c =
       (Throw error,
        {| Part000.retryCount := 6; Part000.disconnected := true |},
        [ELog ("Could not connect to the Redis database. " +:+ Part000.errorText error);
         ELog Part000.stoppingPolling;
         EDisconnect])).
Proof.
  cbv zeta.
  assert (∀ l, Part000.retryCount (Part000.afterErrors l Part000.connector0)
               = Z.of_nat (length l)) as Hcount.
  { intros l. rewrite afterErrors_retryCount. simpl. lia. }
  split; [|split].
  - intros Hlen. unfold Part000.retryStrategy. rewrite Hcount.
    destruct (Z.ltb_spec 5 (Z.of_nat (length errors))); [lia|done].
  - intros Hlen. rewrite <- afterErrors_app. split.
    + unfold Part000.retryStrategy. rewrite Hcount, length_app.
      destruct (Z.ltb_spec 5 (Z.of_nat (length errors + length more))); [done|lia].
    + rewrite afterErrors_disconnected by done.
      rewrite length_app. apply bool_decide_eq_true_2. simpl. lia.
  - intros Hlen. unfold Part000.onError. cbv zeta.
    rewrite Hcount, Hlen. reflexivity.
Qed.

Lemma reconnect_budget_of_five_witness :
  let refused := RedisError "connect ECONNREFUSED 127.0.0.1:6379" in
  let c5 := Part000.afterErrors (replicate 5 refused) Part000.connector0 in
  let c6 := Part000.afterErrors (replicate 6 refused) Part000.connector0 in
  (Part000.retryStrategy c5 = Some 1000
   ∧ Part000.onError refused c5 =
     (Throw refused,
      {| Part000.retryCount := 6; Part000.disconnected := true |},
      [ELog ("Could not connect to the Redis database. " +:+ Part000.errorText refused);
       ELog Part000.stoppingPolling;
       EDisconnect]))
  ∧ Part000.retryStrategy (Part000.afterErrors [refused] c6) = None
  ∧ Part000.disconnected (Part000.afterErrors [refused] c6) = true.
Proof.
  cbv zeta.
  pose proof (reconnect_budget_of_five
                (replicate 5 (RedisError "connect ECONNREFUSED 127.0.0.1:6379")) []
                (RedisError "connect ECONNREFUSED 127.0.0.1:6379")) as (H5 & _ & Hsixth).
  pose proof (reconnect_budget_of_five
                (replicate 6 (RedisError "connect ECONNREFUSED 127.0.0.1:6379"))
                [RedisError "connect ECONNREFUSED 127.0.0.1:6379"]
                (RedisError "connect ECONNREFUSED 127.0.0.1:6379")) as (_ & H6 & _).
  split; [split|].
  - apply H5. simpl. lia.
  - apply Hsixth. reflexivity.
  - apply H6. simpl. lia.
Defined.

(** ** The call of the method *)

Lemma admitted_of_gate value args (g : Run unit) :
  invocations (events g) = [] →
  admitted value args
    {| outcome := value args; final := final g; events := events g ++ [EInvoke args] |}.
Proof.
  intros Hg. split; [|done]. simpl. rewrite invocations_app, Hg. reflexivity.
Qed.

Lemma Part000_admitted _dict client value _context env args s :
  outcome (Part000.limiterGate _dict client _context env args s) = Normal tt →
  admitted value args (Part000.wrapped _dict client value _context env args s).
Proof.
  intros Hg. rewrite Part000_wrapped_gate. cbv zeta. rewrite Hg.
  apply admitted_of_gate, Part000_gate_invocations.
Qed.

Lemma IndexTs_admitted _dict redisClient value _context env args s :
  outcome (IndexTs.limiterGate _dict redisClient _context env args s) = Normal tt →
  admitted value args (IndexTs.wrapped _dict redisClient value _context env args s).
Proof.
  intros Hg. rewrite IndexTs_wrapped_gate. cbv zeta. rewrite Hg.
  apply admitted_of_gate, IndexTs_gate_invocations.
Qed.

Lemma Part000_rejected _dict client value _context env args s error :
  outcome (Part000.limiterGate _dict client _context env args s) = Throw error →
  rejectedWith error (Part000.wrapped _dict client value _context env args s).
Proof.
  intros Hg. rewrite Part000_wrapped_gate. cbv zeta. rewrite Hg.
  split; [apply Part000_gate_invocations|done].
Qed.

Lemma IndexTs_rejected _dict redisClient value _context env args s error :
  outcome (IndexTs.limiterGate _dict redisClient _context env args s) = Throw error →
  rejectedWith error (IndexTs.wrapped _dict redisClient value _context env args s).
Proof.
  intros Hg. rewrite IndexTs_wrapped_gate. cbv zeta. rewrite Hg.
  split; [apply IndexTs_gate_invocations|done].
Qed.

(** C9, as the code has it: in both versions the method is called only for
    a request the gate lets through (the gate throws nothing), and such a
    request is admitted: the method is called exactly once, on the original
    argument list, and the completion of the wrapped function is the
    completion of that call, be it a value or an exception.  A request the
    gate refuses gets the error of the gate and the method is not called.
    The gate lets through every request with a GnzContext whose counter is
    below the limit on a store that answers (in [part_000], with a
    [refreshRate] that passes the check of the code) and, in [index.ts],
    every request with a GnzContext whose read of the store fails with an
    error other than a RequestTimeout.  In [part_000] a request with a
    GnzContext whose read of the store fails is not admitted: it is rejected
    with the error of the store. *)
Theorem admitted_request_runs_handler_once :
  (∀ _dict client value _context env args s,
     let r := Part000.wrapped _dict client value _context env args s in
     match outcome (Part000.limiterGate _dict client _context env args s) with
     | Normal _ => admitted value args r
     | Throw error => rejectedWith error r
     end)
  ∧ (∀ _dict redisClient value _context env args s,
     let r := IndexTs.wrapped _dict redisClient value _context env args s in
     match outcome (IndexTs.limiterGate _dict redisClient _context env args s) with
     | Normal _ => admitted value args r
     | Throw error => rejectedWith error r
     end)
  ∧ (∀ _dict client value _context d args ip s,
     gnzContextArgs ip args →
     limitReached (redis_get (epochMs d) (Part000.key ip (name _context) d) s)
       (Part000.limitOrDefault _dict) = false →
     Part000.refreshRateBelowOne _dict = false →
     admitted value args (Part000.wrapped _dict client value _context (healthy d) args s))
  ∧ (∀ _dict client value _context d args ip s,
     gnzContextArgs ip args →
     limitReached (redis_get (epochMs d) (IndexTs.key ip d) s)
       (IndexTs.limitOrDefault _dict) = false →
     admitted value args
       (IndexTs.wrapped _dict (Some client) value _context (healthy d) args s))
  ∧ (∀ _dict redisClient value _context env args ip error s,
     gnzContextArgs ip args →
     getFault env = Some error →
     isRequestTimeout error = false →
     admitted value args (IndexTs.wrapped _dict redisClient value _context env args s))
  ∧ (∀ _dict client value _context env args ip error s,
     gnzContextArgs ip args →
     getFault env = Some error →
     rejectedWith error (Part000.wrapped _dict client value _context env args s)).
Proof.
  split; [|split; [|split; [|split; [|split]]]].
  - intros _dict client value _context env args s. cbv zeta.
    destruct (outcome (Part000.limiterGate _ _ _ _ _ _)) as [[]|error] eqn:Hgate.
    + by apply Part000_admitted.
    + by apply Part000_rejected.
  - intros _dict redisClient value _context env args s. cbv zeta.
    destruct (outcome (IndexTs.limiterGate _ _ _ _ _ _)) as [[]|error] eqn:Hgate.
    + by apply IndexTs_admitted.
    + by apply IndexTs_rejected.
  - intros _dict client value _context d args ip s Hctx Hlim Hrate.
    apply Part000_admitted.
    rewrite (Part000_gate_context _ _ _ _ _ ip) by done. cbv zeta. simpl.
    simpl in Hlim. rewrite Hlim, Hrate. reflexivity.
  - intros _dict client value _context d args ip s Hctx Hlim.
    apply IndexTs_admitted.
    rewrite (IndexTs_gate_context _ _ _ _ _ ip) by done. cbv zeta. simpl.
    simpl in Hlim. rewrite Hlim. reflexivity.
  - intros _dict redisClient value _context env args ip error s Hctx Hfault Herr.
    apply IndexTs_admitted.
    rewrite (IndexTs_gate_context _ _ _ _ _ ip) by done. cbv zeta.
    rewrite Hfault, Herr. by destruct redisClient.
  - intros _dict client value _context env args ip error s Hctx Hfault.
    apply Part000_rejected.
    rewrite (Part000_gate_context _ _ _ _ _ ip) by done. cbv zeta.
    by rewrite Hfault.
Qed.

Lemma admitted_request_runs_handler_once_witness :
  admitted Sample.method Sample.args
    (Part000.wrapped Sample.defaults Sample.client Sample.method Sample.hello
       (healthy (Sample.utc 0)) Sample.args ∅)
  ∧ admitted Sample.method Sample.args
      (IndexTs.wrapped Sample.defaultsIndexTs None Sample.method Sample.hello
         (Sample.unreachable (Sample.utc 0)) Sample.args ∅)
  ∧ rejectedWith Sample.connectionLost
      (Part000.wrapped Sample.defaults Sample.client Sample.method Sample.hello
         (Sample.unreachable (Sample.utc 0)) Sample.args ∅).
Proof.
  destruct admitted_request_runs_handler_once as (_ & _ & Hpart & _ & Hindex & Hrefused).
  split; [|split].
  - eapply (Hpart _ _ _ _ _ _ Sample.ip).
    + by eexists _, _.
    + vm_compute. reflexivity.
    + reflexivity.
  - eapply (Hindex _ _ _ _ _ _ Sample.ip Sample.connectionLost).
    + by eexists _, _.
    + reflexivity.
    + reflexivity.
  - eapply (Hrefused _ _ _ _ _ _ Sample.ip Sample.connectionLost).
    + by eexists _, _.
    + reflexivity.
Defined.

(** [part_000], default options, a GnzContext, a store that cannot be
    reached: the method is never called and the caller gets the error of the
    store. *)
Lemma unreachable_store_refused_by_part_000 :
  let r := Part000.wrapped Sample.defaults Sample.client Sample.method Sample.hello
             (Sample.unreachable (Sample.utc 0)) Sample.args ∅ in
  invocations (events r) = []
  ∧ outcome r = Throw Sample.connectionLost.
Proof. vm_compute. by split. Qed.

(** ** The threshold *)

Lemma limitReached_spec oldCount threshold :
  limitReached oldCount threshold = true ↔ ∃ n, oldCount = Some n ∧ threshold ≤ n.
Proof.
  unfold limitReached. destruct oldCount as [n|]; split.
  - intros ?%Z.leb_le. eauto.
  - intros (? & [= <-] & ?). by apply Z.leb_le.
  - done.
  - by intros (? & ? & ?).
Qed.

(** On a store that answers, a GnzContext is turned away with "Rate limit
    exceeded" exactly when the limit is reached. *)
Lemma Part000_rate_limited_iff _dict client value _context d args ip s :
  gnzContextArgs ip args →
  rejectedWith rateLimitExceeded
    (Part000.wrapped _dict client value _context (healthy d) args s)
  ↔ limitReached (redis_get (epochMs d) (Part000.key ip (name _context) d) s)
      (Part000.limitOrDefault _dict) = true.
Proof.
  intros Hctx. split.
  - intros [Hinv Hout]. revert Hinv Hout.
    rewrite Part000_wrapped_gate, (Part000_gate_context _ _ _ _ _ ip) by done.
    cbv zeta. simpl. destruct (limitReached _ _); [done|].
    destruct (Part000.refreshRateBelowOne _dict); simpl; [|done].
    by intros _ [=].
  - intros Hlim. apply Part000_rejected.
    rewrite (Part000_gate_context _ _ _ _ _ ip) by done. cbv zeta. simpl.
    simpl in Hlim. by rewrite Hlim.
Qed.

Lemma IndexTs_rate_limited_iff _dict client value _context d args ip s :
  gnzContextArgs ip args →
  rejectedWith rateLimitExceeded
    (IndexTs.wrapped _dict (Some client) value _context (healthy d) args s)
  ↔ limitReached (redis_get (epochMs d) (IndexTs.key ip d) s)
      (IndexTs.limitOrDefault _dict) = true.
Proof.
  intros Hctx. split.
  - intros [Hinv Hout]. revert Hinv Hout.
    rewrite IndexTs_wrapped_gate, (IndexTs_gate_context _ _ _ _ _ ip) by done.
    cbv zeta. simpl. by destruct (limitReached _ _).
  - intros Hlim. apply IndexTs_rejected.
    rewrite (IndexTs_gate_context _ _ _ _ _ ip) by done. cbv zeta. simpl.
    simpl in Hlim. by rewrite Hlim.
Qed.

(** C10: with [limit] set to 0 the threshold is the default 50, in both
    versions: on a store that answers, a request with a GnzContext is turned
    away with "Rate limit exceeded" exactly when the stored count is at
    least 50. *)
Theorem zero_limit_is_replaced_by_default :
  (∀ _dict, Part000.limit _dict = Some 0 →
     Part000.limitOrDefault _dict = 50
     ∧ ∀ client value _context d args ip s,
         gnzContextArgs ip args →
         (rejectedWith rateLimitExceeded
            (Part000.wrapped _dict client value _context (healthy d) args s)
          ↔ ∃ n, redis_get (epochMs d) (Part000.key ip (name _context) d) s = Some n
                 ∧ 50 ≤ n))
  ∧ (∀ _dict, IndexTs.limit _dict = Some 0 →
     IndexTs.limitOrDefault _dict = 50
     ∧ ∀ client value _context d args ip s,
         gnzContextArgs ip args →
         (rejectedWith rateLimitExceeded
            (IndexTs.wrapped _dict (Some client) value _context (healthy d) args s)
          ↔ ∃ n, redis_get (epochMs d) (IndexTs.key ip d) s = Some n ∧ 50 ≤ n)).
Proof.
  split.
  - intros _dict Hzero.
    assert (Part000.limitOrDefault _dict = 50) as Hdefault.
    { unfold Part000.limitOrDefault. by rewrite Hzero. }
    split; [done|]. intros client value _context d args ip s Hctx.
    rewrite Part000_rate_limited_iff, Hdefault by done. apply limitReached_spec.
  - intros _dict Hzero.
    assert (IndexTs.limitOrDefault _dict = 50) as Hdefault.
    { unfold IndexTs.limitOrDefault. by rewrite Hzero. }
    split; [done|]. intros client value _context d args ip s Hctx.
    rewrite IndexTs_rate_limited_iff, Hdefault by done. apply limitReached_spec.
Qed.

Lemma zero_limit_is_replaced_by_default_witness :
  let k := Part000.key Sample.ip "hello" (Sample.utc 0) in
  let full := {[ k := {| count := 50; expiresAt := None |} ]} in
  Part000.limitOrDefault (Sample.withLimit 0) = 50
  ∧ rejectedWith rateLimitExceeded
      (Part000.wrapped (Sample.withLimit 0) Sample.client Sample.method Sample.hello
         (healthy (Sample.utc 0)) Sample.args full)
  ∧ IndexTs.limitOrDefault (Sample.withLimitIndexTs 0) = 50.
Proof.
  cbv zeta.
  destruct zero_limit_is_replaced_by_default as [Hpart Hindex].
  destruct (Hpart (Sample.withLimit 0) eq_refl) as [Hfifty Hreject].
  split; [exact Hfifty|split].
  - eapply (Hreject _ _ _ _ _ Sample.ip); [by eexists _, _|].
    exists 50. split; [vm_compute; reflexivity|lia].
  - apply (Hindex (Sample.withLimitIndexTs 0) eq_refl).
Defined.

(** ** Errors of the store *)

(** C2, as the code has it: for a request with a GnzContext and an error of
    the store other than a RequestTimeout, raised by the read or by the
    increment and expire, [index.ts] logs the error and swallows it, so that
    the request is admitted, while [part_000] logs it and throws it again, so
    that the caller gets the error and the method is not called.  Either way
    the store is left as it was. *)
Theorem store_error_swallowed_or_rethrown :
  (∀ _dict client value _context env args ip error s,
     gnzContextArgs ip args →
     isRequestTimeout error = false →
     storeFails env error
       (negb (limitReached (redis_get (epochMs (date env)) (IndexTs.key ip (date env)) s)
                (IndexTs.limitOrDefault _dict))) →
     let r := IndexTs.wrapped _dict (Some client) value _context env args s in
     admitted value args r
     ∧ final r = s
     ∧ ELog IndexTs.redisHint ∈ events r
     ∧ ELogError error ∈ events r)
  ∧ (∀ _dict client value _context env args ip error s,
     gnzContextArgs ip args →
     isRequestTimeout error = false →
     storeFails env error
       (negb (limitReached (redis_get (epochMs (date env))
                              (Part000.key ip (name _context) (date env)) s)
                (Part000.limitOrDefault _dict))
        && negb (Part000.refreshRateBelowOne _dict)) →
     let r := Part000.wrapped _dict client value _context env args s in
     rejectedWith error r
     ∧ final r = s
     ∧ ELog Part000.redisHint ∈ events r).
Proof.
  split.
  - intros _dict client value _context env args ip error s Hctx Herr Hfail. cbv zeta.
    rewrite IndexTs_wrapped_gate, (IndexTs_gate_context _ _ _ _ _ ip) by done. cbv zeta.
    destruct Hfail as [->|(-> & Hlim%negb_true_iff & ->)]; rewrite ?Hlim, Herr; simpl.
    + repeat split; try done; set_solver.
    + repeat split; try done; set_solver.
  - intros _dict client value _context env args ip error s Hctx Herr Hfail. cbv zeta.
    rewrite Part000_wrapped_gate, (Part000_gate_context _ _ _ _ _ ip) by done. cbv zeta.
    unfold part000_catch_log.
    destruct Hfail as [->|(-> & [Hlim%negb_true_iff Hrate%negb_true_iff]%andb_true_iff & ->)];
      rewrite ?Hlim, ?Hrate, Herr; simpl.
    + repeat split; try done; set_solver.
    + repeat split; try done; set_solver.
Qed.

Lemma store_error_swallowed_or_rethrown_witness :
  admitted Sample.method Sample.args
    (IndexTs.wrapped Sample.defaultsIndexTs (Some Sample.client) Sample.method Sample.hello
       (Sample.unreachable (Sample.utc 0)) Sample.args ∅)
  ∧ rejectedWith Sample.connectionLost
      (Part000.wrapped Sample.defaults Sample.client Sample.method Sample.hello
         (Sample.unreachable (Sample.utc 0)) Sample.args ∅).
Proof.
  destruct store_error_swallowed_or_rethrown as [Hindex Hpart].
  split.
  - eapply (Hindex _ _ _ _ _ _ Sample.ip Sample.connectionLost).
    + by eexists _, _.
    + reflexivity.
    + left. reflexivity.
  - eapply (Hpart _ _ _ _ _ _ Sample.ip Sample.connectionLost).
    + by eexists _, _.
    + reflexivity.
    + left. reflexivity.
Defined.

(** [part_000], default options, a GnzContext, a store that cannot be
    reached: the error of the read reaches the caller and the method is not
    called. *)
Lemma store_error_not_swallowed_by_part_000 :
  Part000.wrapped Sample.defaults Sample.client Sample.method Sample.hello
    (Sample.unreachable (Sample.utc 0)) Sample.args ∅
  = {| outcome := Throw Sample.connectionLost;
       final := ∅;
       events := [EGet "203.0.113.7:hello:0"; ELog Part000.redisHint] |}.
Proof. vm_compute. reflexivity. Qed.

(** ** A missing context *)

(** C7, as the code has it: when there is no argument, or the first argument
    (other than [undefined] and [null]) has no truthy [isGnzContext],
    [part_000] logs and throws a BadRequest error before any operation on the
    store, nothing catches it, and the method is not called; [index.ts] logs
    a warning, does no operation on the store either, and calls the
    method. *)
Theorem missing_context_rejected_or_warned :
  (∀ _dict client value _context env args s,
     lacksGnzContext args →
     let r := Part000.wrapped _dict client value _context env args s in
     r = {| outcome := Throw (GenezioError Part000.contextError BadRequest);
            final := s;
            events := [ELog Part000.contextError] |}
     ∧ rejectedWith (GenezioError Part000.contextError BadRequest) r
     ∧ storeOps (events r) = [])
  ∧ (∀ _dict redisClient value _context env args s,
     lacksGnzContext args →
     let r := IndexTs.wrapped _dict redisClient value _context env args s in
     r = {| outcome := value args;
            final := s;
            events := [ELog IndexTs.warning; EInvoke args] |}
     ∧ admitted value args r
     ∧ storeOps (events r) = []).
Proof.
  split.
  - intros _dict client value _context env args s Hargs. cbv zeta.
    rewrite Part000_wrapped_gate, Part000_gate_no_context by done.
    by repeat split.
  - intros _dict redisClient value _context env args s Hargs. cbv zeta.
    rewrite IndexTs_wrapped_gate, IndexTs_gate_no_context by done.
    by repeat split.
Qed.

Lemma missing_context_rejected_or_warned_witness :
  lacksGnzContext [JsPrimitive "42"]
  ∧ rejectedWith (GenezioError Part000.contextError BadRequest)
      (Part000.wrapped Sample.defaults Sample.client Sample.method Sample.hello
         (healthy (Sample.utc 0)) [JsPrimitive "42"] ∅)
  ∧ admitted Sample.method [JsPrimitive "42"]
      (IndexTs.wrapped Sample.defaultsIndexTs (Some Sample.client) Sample.method Sample.hello
         (healthy (Sample.utc 0)) [JsPrimitive "42"] ∅).
Proof.
  assert (lacksGnzContext [JsPrimitive "42"]) as Hargs.
  { right. by eexists _, _. }
  destruct missing_context_rejected_or_warned as [Hpart Hindex].
  split; [exact Hargs|split].
  - apply Hpart, Hargs.
  - apply Hindex, Hargs.
Defined.

(** [index.ts], called without any argument: no error, the method runs. *)
Lemma missing_context_admitted_by_index_ts :
  IndexTs.wrapped Sample.defaultsIndexTs (Some Sample.client) Sample.method Sample.hello
    (healthy (Sample.utc 0)) [] ∅
  = {| outcome := Normal (JsPrimitive "done");
       final := ∅;
       events := [ELog IndexTs.warning; EInvoke []] |}.
Proof. vm_compute. reflexivity. Qed.

(** ** The construction of the limiter *)

(** C6, as the code has it: when [new Redis] throws, [index.ts] logs the
    error and the construction returns the decorator, whose client is
    [undefined]: every later request with a GnzContext is admitted, with the
    TypeError of the first use of the client logged and no operation on the
    store; [part_000] logs and throws the error again, so that
    [GenezioRateLimiter] throws and no decorator is made. *)
Theorem construction_failure_swallowed_or_rethrown :
  (∀ newRedis _dict error s,
     newRedis (IndexTs.dbUrlOrDefault _dict) = Throw error →
     IndexTs.GenezioRateLimiter newRedis _dict s
     = {| outcome := Normal (IndexTs.wrapped _dict None);
          final := s;
          events := [ELog IndexTs.redisHintFactory; ELogError error] |}
     ∧ ∀ value _context env args ip s',
         gnzContextArgs ip args →
         let r := IndexTs.wrapped _dict None value _context env args s' in
         admitted value args r ∧ final r = s' ∧ storeOps (events r) = [])
  ∧ (∀ newRedis _dict error s,
     newRedis (Part000.dbUrlOrDefault _dict) = Throw error →
     Part000.GenezioRateLimiter newRedis _dict s
     = {| outcome := Throw error; final := s; events := [ELog Part000.redisHint] |}).
Proof.
  split.
  - intros newRedis _dict error s Hnew. split.
    + unfold IndexTs.GenezioRateLimiter. run_factory. rewrite Hnew. reflexivity.
    + intros value _context env args ip s' Hctx. cbv zeta.
      rewrite IndexTs_wrapped_gate, (IndexTs_gate_context _ _ _ _ _ ip) by done.
      by repeat split.
  - intros newRedis _dict error s Hnew.
    unfold Part000.GenezioRateLimiter. run_factory. rewrite Hnew. reflexivity.
Qed.

Lemma construction_failure_swallowed_or_rethrown_witness :
  outcome (IndexTs.GenezioRateLimiter Sample.failingRedis Sample.defaultsIndexTs ∅)
  = Normal (IndexTs.wrapped Sample.defaultsIndexTs None)
  ∧ outcome (Part000.GenezioRateLimiter Sample.failingRedis Sample.defaults ∅)
    = Throw (RedisError "Invalid argument").
Proof.
  destruct construction_failure_swallowed_or_rethrown as [Hindex Hpart].
  split.
  - destruct (Hindex Sample.failingRedis Sample.defaultsIndexTs
                (RedisError "Invalid argument") ∅) as [-> _]; reflexivity.
  - rewrite (Hpart Sample.failingRedis Sample.defaults (RedisError "Invalid argument") ∅);
      reflexivity.
Defined.

(** [part_000]: when [new Redis] throws, so does [GenezioRateLimiter]. *)
Lemma construction_failure_thrown_by_part_000 :
  Part000.GenezioRateLimiter Sample.failingRedis Sample.defaults ∅
  = {| outcome := Throw (RedisError "Invalid argument");
       final := ∅;
       events := [ELog Part000.redisHint] |}.
Proof. unfold Part000.GenezioRateLimiter. run_factory. reflexivity. Qed.

(** ** The refresh rate *)

Lemma refreshRateBelowOne_negative _dict r :
  Part000.refreshRate _dict = Some r → r < 0 → Part000.refreshRateBelowOne _dict = true.
Proof.
  intros Hr Hneg. unfold Part000.refreshRateBelowOne. rewrite Hr.
  apply andb_true_iff. split; [apply negb_true_iff|]; lia.
Qed.

(** C4, as the code has it: with a negative [refreshRate], a request with a
    GnzContext is never admitted and never writes to the store, but the
    store is read first: the only operation on the store is the [GET].  When
    that read answers a count below the limit (or none), the request fails
    with the BadRequest error "The refresh rate must be at least 1 second",
    raised before the increment and expire. *)
Theorem negative_refresh_rate_rejected_after_read
    (_dict : Part000.GenezioRateLimiterOptionsParameters) (rate : Z)
    (client : RedisClient) (value : Handler) (_context : DecoratorContext)
    (env : Env) (args : list JsValue) (ip : string) (s : gmap string Entry) :
  Part000.refreshRate _dict = Some rate →
  rate < 0 →
  gnzContextArgs ip args →
  let k := Part000.key ip (name _context) (date env) in
  let r := Part000.wrapped _dict client value _context env args s in
  storeOps (events r) = [EGet k]
  ∧ final r = s
  ∧ invocations (events r) = []
  ∧ (getFault env = None →
     limitReached (redis_get (epochMs (date env)) k s) (Part000.limitOrDefault _dict) = false →
     r = {| outcome := Throw Part000.refreshRateError;
            final := s;
            events := [EGet k; ELog Part000.redisHint] |}).
Proof.
  intros Hrate Hneg Hctx. cbv zeta.
  rewrite Part000_wrapped_gate, (Part000_gate_context _ _ _ _ _ ip) by done. cbv zeta.
  rewrite (refreshRateBelowOne_negative _ _ Hrate Hneg).
  unfold part000_catch_log.
  destruct (getFault env) as [error|]; [|destruct (limitReached _ _)].
  - by destruct (isRequestTimeout error).
  - by repeat split.
  - by repeat split.
Qed.

Lemma negative_refresh_rate_rejected_after_read_witness :
  Part000.wrapped (Sample.withRefreshRate (-5)) Sample.client Sample.method Sample.hello
    (healthy (Sample.utc 0)) Sample.args ∅
  = {| outcome := Throw Part000.refreshRateError;
       final := ∅;
       events := [EGet (Part000.key Sample.ip "hello" (Sample.utc 0));
                  ELog Part000.redisHint] |}.
Proof.
  apply (negative_refresh_rate_rejected_after_read
           (Sample.withRefreshRate (-5)) (-5) Sample.client Sample.method Sample.hello
           (healthy (Sample.utc 0)) Sample.args Sample.ip ∅).
  - reflexivity.
  - lia.
  - by eexists _, _.
  - reflexivity.
  - vm_compute. reflexivity.
Defined.

(** [refreshRate = -1]: the store is read before the request is refused. *)
Lemma negative_refresh_rate_reads_the_store :
  Part000.wrapped (Sample.withRefreshRate (-1)) Sample.client Sample.method Sample.hello
    (healthy (Sample.utc 0)) Sample.args ∅
  = {| outcome := Throw Part000.refreshRateError;
       final := ∅;
       events := [EGet "203.0.113.7:hello:0"; ELog Part000.redisHint] |}.
Proof. vm_compute. reflexivity. Qed.

(** [refreshRate = 0] is falsy: it raises no error and stands for the
    default of 59 seconds. *)
Lemma zero_refresh_rate_is_default _dict :
  Part000.refreshRate _dict = Some 0 →
  Part000.refreshRateBelowOne _dict = false ∧ Part000.refreshRateOrDefault _dict = 59.
Proof.
  intros Hzero. unfold Part000.refreshRateBelowOne, Part000.refreshRateOrDefault.
  by rewrite Hzero.
Qed.

(** ** The window key *)

Lemma getMinutes_range d : 0 ≤ getMinutes d < 60.
Proof. unfold getMinutes. apply Z.mod_pos_bound. lia. Qed.

Lemma getMinutes_calendarMinute d :
  getMinutes d = (calendarMinute d + tzMinutes d) mod 60.
Proof. reflexivity. Qed.

(** The decimal rendering of a minute of the hour has no colon. *)
Lemma colonFree_minutes z : 0 ≤ z < 60 → colonFree (pretty z) = true.
Proof.
  intros Hz.
  assert (forallb (λ z, colonFree (pretty z)) (seqZ 0 60) = true) as Hall
    by (vm_compute; reflexivity).
  rewrite forallb_forall in Hall. apply Hall.
  apply list_elem_of_In, elem_of_seqZ. lia.
Qed.

Lemma append_nil_l (t : string) : "" +:+ t = t.
Proof. reflexivity. Qed.

Lemma append_cons (a : ascii) (s t : string) : String a s +:+ t = String a (s +:+ t).
Proof. reflexivity. Qed.

Lemma colonFree_append_colon s : ∀ p, colonFree (s +:+ String ":"%char p) = false.
Proof.
  induction s as [|a s IH]; intros p.
  - reflexivity.
  - rewrite append_cons. cbn [colonFree]. rewrite IH. apply andb_false_r.
Qed.

(** A text is split in one way only at its last colon. *)
Lemma last_colon_splits s1 : ∀ s2 p1 p2,
  colonFree p1 = true → colonFree p2 = true →
  s1 +:+ ":" +:+ p1 = s2 +:+ ":" +:+ p2 → s1 = s2 ∧ p1 = p2.
Proof.
  induction s1 as [|a s1 IH]; intros [|b s2] p1 p2 Hp1 Hp2 Heq;
    repeat (rewrite append_nil_l in Heq || rewrite append_cons in Heq).
  - injection Heq as Heq. done.
  - injection Heq as Hb Ht. rewrite Ht, colonFree_append_colon in Hp1. done.
  - injection Heq as Hb Ht. rewrite <- Ht, colonFree_append_colon in Hp2. done.
  - injection Heq as Hb Ht. destruct (IH _ _ _ Hp1 Hp2 Ht) as [-> ->]. by rewrite Hb.
Qed.

Lemma Part000_key_inj ip name1 name2 d1 d2 :
  Part000.key ip name1 d1 = Part000.key ip name2 d2 →
  name1 = name2 ∧ getMinutes d1 = getMinutes d2.
Proof.
  unfold Part000.key. intros Heq.
  apply (inj (String.append ip)), (inj (String.append ":")) in Heq.
  apply last_colon_splits in Heq as [-> Hm];
    [|apply colonFree_minutes, getMinutes_range..].
  split; [done|]. by apply (inj pretty).
Qed.

Lemma IndexTs_key_inj ip d1 d2 :
  IndexTs.key ip d1 = IndexTs.key ip d2 → getMinutes d1 = getMinutes d2.
Proof.
  unfold IndexTs.key. intros Heq.
  apply (inj (String.append ip)), (inj (String.append ":")) in Heq.
  by apply (inj pretty).
Qed.

(** C3, as the code has it: the key is made of the address, of the scope (in
    [part_000]) and of the local minute of the hour, [date.getMinutes()].
    For one identity, two requests have the same key exactly when their
    minutes of the hour are equal, that is when their local wall-clock
    minutes differ by a multiple of 60.  So two requests in one calendar
    minute have the same key, and so have two requests a whole number of
    hours apart. *)
Theorem window_key_follows_minute_of_hour (ip scope : string) (d1 d2 : Date) :
  (Part000.key ip scope d1 = Part000.key ip scope d2 ↔ getMinutes d1 = getMinutes d2)
  ∧ (IndexTs.key ip d1 = IndexTs.key ip d2 ↔ getMinutes d1 = getMinutes d2)
  ∧ (getMinutes d1 = getMinutes d2
     ↔ ((calendarMinute d1 + tzMinutes d1) - (calendarMinute d2 + tzMinutes d2)) mod 60 = 0)
  ∧ (calendarMinute d1 = calendarMinute d2 → tzMinutes d1 = tzMinutes d2 →
     getMinutes d1 = getMinutes d2).
Proof.
  split; [|split; [|split]].
  - split; [by intros [_ ?]%Part000_key_inj|].
    unfold Part000.key. by intros ->.
  - split; [apply IndexTs_key_inj|].
    unfold IndexTs.key. by intros ->.
  - rewrite !getMinutes_calendarMinute. apply Z.cong_iff_0.
  - intros Hminute Htz. by rewrite !getMinutes_calendarMinute, Hminute, Htz.
Qed.

Lemma window_key_follows_minute_of_hour_witness :
  calendarMinute (Sample.utc 120000) = calendarMinute (Sample.utc 179999)
  ∧ getMinutes (Sample.utc 120000) = getMinutes (Sample.utc 179999)
  ∧ Part000.key Sample.ip "hello" (Sample.utc 120000)
    = Part000.key Sample.ip "hello" (Sample.utc 179999).
Proof.
  destruct (window_key_follows_minute_of_hour Sample.ip "hello"
              (Sample.utc 120000) (Sample.utc 179999)) as (Hkey & _ & _ & Hsame).
  assert (getMinutes (Sample.utc 120000) = getMinutes (Sample.utc 179999)) as Hminutes.
  { apply Hsame; reflexivity. }
  split; [reflexivity|split; [exact Hminutes|]].
  apply Hkey, Hminutes.
Defined.

(** Two requests one hour apart: two calendar minutes, one key. *)
Lemma one_key_for_two_hours :
  calendarMinute (Sample.utc 0) = 0
  ∧ calendarMinute (Sample.utc 3600000) = 60
  ∧ Part000.key Sample.ip "hello" (Sample.utc 0) = "203.0.113.7:hello:0"
  ∧ Part000.key Sample.ip "hello" (Sample.utc 3600000) = "203.0.113.7:hello:0"
  ∧ IndexTs.key Sample.ip (Sample.utc 0) = "203.0.113.7:0"
  ∧ IndexTs.key Sample.ip (Sample.utc 3600000) = "203.0.113.7:0".
Proof. vm_compute. by repeat split. Qed.

(** ** The scope *)

(** A request changes no counter but the one under its own key. *)
Lemma Part000_frame _dict client value _context env args ip k' s :
  gnzContextArgs ip args →
  Part000.key ip (name _context) (date env) ≠ k' →
  final (Part000.wrapped _dict client value _context env args s) !! k' = s !! k'.
Proof.
  intros Hctx Hne.
  rewrite Part000_wrapped_gate, (Part000_gate_context _ _ _ _ _ ip) by done. cbv zeta.
  assert (∀ (g : Run unit), final g !! k' = s !! k' →
    final (match outcome g with
           | Normal _ => {| outcome := value args; final := final g;
                            events := events g ++ [EInvoke args] |}
           | Throw error => {| outcome := Throw error; final := final g;
                               events := events g |}
           end) !! k' = s !! k') as Hwrap.
  { intros g Hg. by destruct (outcome g). }
  apply Hwrap.
  repeat case_match; simpl; try done.
  by rewrite redis_expire_other, redis_incr_other.
Qed.

(** C5, as the code has it: in [part_000], two requests from one address to
    methods of different names have different keys, whatever their dates,
    and serving the one leaves the counter under the key of the other as it
    was.  In [index.ts] the name of the method plays no part: the wrapped
    function, and with it the key and the counter, is the same for every
    method. *)
Theorem scope_separates_counters_in_part_000 :
  (∀ _dict client value _context env args ip scope' d' s,
     gnzContextArgs ip args →
     name _context ≠ scope' →
     Part000.key ip (name _context) (date env) ≠ Part000.key ip scope' d'
     ∧ final (Part000.wrapped _dict client value _context env args s)
         !! Part000.key ip scope' d'
       = s !! Part000.key ip scope' d')
  ∧ (∀ _dict redisClient value _context _context' env args s,
     IndexTs.wrapped _dict redisClient value _context env args s
     = IndexTs.wrapped _dict redisClient value _context' env args s).
Proof.
  split.
  - intros _dict client value _context env args ip scope' d' s Hctx Hscope.
    assert (Part000.key ip (name _context) (date env) ≠ Part000.key ip scope' d') as Hkeys.
    { by intros [? _]%Part000_key_inj. }
    split; [done|]. by eapply Part000_frame.
  - intros. unfold IndexTs.wrapped, IndexTs.limiterGate. reflexivity.
Qed.

Lemma scope_separates_counters_in_part_000_witness :
  let listUsers := {| name := "listUsers" |} in
  let store := {[ Part000.key Sample.ip "deleteUser" (Sample.utc 0) :=
                    {| count := 7; expiresAt := Some 59000 |} ]} in
  final (Part000.wrapped Sample.defaults Sample.client Sample.method listUsers
           (healthy (Sample.utc 1000)) Sample.args store)
    !! Part000.key Sample.ip "deleteUser" (Sample.utc 0)
  = store !! Part000.key Sample.ip "deleteUser" (Sample.utc 0).
Proof.
  cbv zeta.
  destruct scope_separates_counters_in_part_000 as [Hpart _].
  eapply (Hpart _ _ _ {| name := "listUsers" |} (healthy (Sample.utc 1000))).
  - by eexists _, _.
  - discriminate.
Defined.

(** [index.ts], limit 1: a request to [listUsers] uses up the limit of the
    address, and the request to [deleteUser] that follows is turned away. *)
Lemma one_counter_for_all_scopes_in_index_ts :
  let r1 := IndexTs.wrapped (Sample.withLimitIndexTs 1) (Some Sample.client) Sample.method
              {| name := "listUsers" |} (healthy (Sample.utc 0)) Sample.args ∅ in
  let r2 := IndexTs.wrapped (Sample.withLimitIndexTs 1) (Some Sample.client) Sample.method
              {| name := "deleteUser" |} (healthy (Sample.utc 1000)) Sample.args (final r1) in
  events r1 = [EGet "203.0.113.7:0"; EMulti "203.0.113.7:0" "203.0.113.7:0" 59;
               EInvoke Sample.args]
  ∧ outcome r2 = Throw rateLimitExceeded
  ∧ events r2 = [EGet "203.0.113.7:0"].
Proof. vm_compute. by repeat split. Qed.

(** ** A window of requests *)

Section Window.

Context (step : Date * list JsValue → M JsValue) (inWindow : Date * list JsValue → Prop).
Context (k : string) (ttl threshold : Z) (value : Handler).

Hypothesis threshold_pos : 1 ≤ threshold.
Hypothesis ttl_pos : 0 < ttl.

Hypothesis step_below : ∀ c s,
  inWindow c →
  limitReached (redis_get (epochMs c.1) k s) threshold = false →
  step c s = {| outcome := value c.2;
                final := redis_expire (epochMs c.1) k ttl (redis_incr (epochMs c.1) k s);
                events := [EGet k; EMulti k k ttl; EInvoke c.2] |}.

Hypothesis step_reached : ∀ c s,
  inWindow c →
  limitReached (redis_get (epochMs c.1) k s) threshold = true →
  step c s = {| outcome := Throw rateLimitExceeded; final := s; events := [EGet k] |}.


End Window.

Lemma refreshRateOrDefault_pos _dict :
  Part000.refreshRateBelowOne _dict = false → 0 < Part000.refreshRateOrDefault _dict.
Proof.
  unfold Part000.refreshRateBelowOne, Part000.refreshRateOrDefault.
  destruct (Part000.refreshRate _dict) as [r|]; [|lia].
  destruct (Z.eqb_spec r 0); [lia|]. simpl. lia.
Qed.

Lemma countAt_absent now k s : redis_get now k s = None → countAt now k s = 0.
Proof. unfold countAt. by intros ->. Qed.




(** * Further properties of the two versions *)

(** ** What an admitted request does to its counter *)

Lemma redis_incr_expire_lookup now k ttl s :
  0 < ttl →
  redis_expire now k ttl (redis_incr now k s) !! k
  = Some {| count := countAt now k s + 1; expiresAt := Some (now + ttl * 1000) |}.
Proof.
  intros Httl. unfold countAt, redis_get, redis_expire, redis_incr.
  assert ((ttl <=? 0) = false) as Hpos by lia.
  destruct (s !! k) as [e|] eqn:Hk; [destruct (live now e) eqn:He|];
    rewrite !lookup_insert_eq; unfold live in *; simpl; rewrite ?He, Hpos;
    by rewrite lookup_insert_eq.
Qed.

(** X1: a request with a GnzContext that finds its counter below the limit,
    on a store that answers, completes as the method does, whatever the
    method returns or throws, and leaves under its key the count it found
    plus one (one, when it found none) with a deadline of now plus the time
    to live: the deadline is set again by every admitted request, whatever
    it was.  The time to live is 59 seconds in [index.ts] and the positive
    [refreshRate], or 59, in [part_000]. *)
Theorem admitted_request_counts_and_resets_expiry :
  (∀ _dict client value _context d args ip s,
     let k := Part000.key ip (name _context) d in
     let ttl := Part000.refreshRateOrDefault _dict in
     gnzContextArgs ip args →
     limitReached (redis_get (epochMs d) k s) (Part000.limitOrDefault _dict) = false →
     Part000.refreshRateBelowOne _dict = false →
     let r := Part000.wrapped _dict client value _context (healthy d) args s in
     outcome r = value args
     ∧ 0 < ttl
     ∧ final r !! k = Some {| count := countAt (epochMs d) k s + 1;
                              expiresAt := Some (epochMs d + ttl * 1000) |})
  ∧ (∀ _dict client value _context d args ip s,
     let k := IndexTs.key ip d in
     gnzContextArgs ip args →
     limitReached (redis_get (epochMs d) k s) (IndexTs.limitOrDefault _dict) = false →
     let r := IndexTs.wrapped _dict (Some client) value _context (healthy d) args s in
     outcome r = value args
     ∧ final r !! k = Some {| count := countAt (epochMs d) k s + 1;
                              expiresAt := Some (epochMs d + 59 * 1000) |}).
Proof.
  split.
  - intros _dict client value _context d args ip s k ttl Hctx Hlim Hrate.
    subst k ttl. cbv zeta.
    pose proof (refreshRateOrDefault_pos _ Hrate) as Hpos.
    rewrite Part000_wrapped_gate, (Part000_gate_context _ _ _ _ _ ip) by done.
    cbv zeta. simpl. rewrite Hlim, Hrate. simpl.
    split; [done|split; [done|]]. by apply redis_incr_expire_lookup.
  - intros _dict client value _context d args ip s k Hctx Hlim.
    subst k. cbv zeta.
    rewrite IndexTs_wrapped_gate, (IndexTs_gate_context _ _ _ _ _ ip) by done.
    cbv zeta. simpl. rewrite Hlim. simpl.
    split; [done|]. by apply redis_incr_expire_lookup.
Qed.

Lemma admitted_request_counts_and_resets_expiry_witness :
  let k := Part000.key Sample.ip "hello" (Sample.utc 30000) in
  let s := {[ k := {| count := 3; expiresAt := Some 31000 |} ]} in
  final (Part000.wrapped Sample.defaults Sample.client Sample.method Sample.hello
           (healthy (Sample.utc 30000)) Sample.args s) !! k
  = Some {| count := countAt 30000 k s + 1; expiresAt := Some (30000 + 59 * 1000) |}.
Proof.
  cbv zeta.
  destruct admitted_request_counts_and_resets_expiry as [Hpart _].
  eapply (Hpart Sample.defaults Sample.client Sample.method Sample.hello
            (Sample.utc 30000) Sample.args Sample.ip).
  - by eexists _, _.
  - vm_compute. reflexivity.
  - reflexivity.
Defined.

(** ** The admission decision *)

(** X2: on a store that answers, a request with a GnzContext is turned away
    with "Rate limit exceeded" exactly when the read finds a counter that is
    at least the threshold.  A request that finds no counter is therefore
    never turned away by the limit, whatever the limit, a negative one
    included. *)
Theorem rate_limited_iff_counter_reaches_limit :
  (∀ _dict client value _context d args ip s,
     gnzContextArgs ip args →
     (rejectedWith rateLimitExceeded
        (Part000.wrapped _dict client value _context (healthy d) args s)
      ↔ ∃ n, redis_get (epochMs d) (Part000.key ip (name _context) d) s = Some n
             ∧ Part000.limitOrDefault _dict ≤ n))
  ∧ (∀ _dict client value _context d args ip s,
     gnzContextArgs ip args →
     (rejectedWith rateLimitExceeded
        (IndexTs.wrapped _dict (Some client) value _context (healthy d) args s)
      ↔ ∃ n, redis_get (epochMs d) (IndexTs.key ip d) s = Some n
             ∧ IndexTs.limitOrDefault _dict ≤ n)).
Proof.
  split.
  - intros _dict client value _context d args ip s Hctx.
    rewrite Part000_rate_limited_iff by done. apply limitReached_spec.
  - intros _dict client value _context d args ip s Hctx.
    rewrite IndexTs_rate_limited_iff by done. apply limitReached_spec.
Qed.

Lemma rate_limited_iff_counter_reaches_limit_witness :
  let k := Part000.key Sample.ip "hello" (Sample.utc 0) in
  let s := {[ k := {| count := 1; expiresAt := None |} ]} in
  rejectedWith rateLimitExceeded
    (Part000.wrapped (Sample.withLimit (-3)) Sample.client Sample.method Sample.hello
       (healthy (Sample.utc 0)) Sample.args s).
Proof.
  cbv zeta.
  destruct rate_limited_iff_counter_reaches_limit as [Hpart _].
  eapply (Hpart _ _ _ _ _ _ Sample.ip); [by eexists _, _|].
  exists 1. split; [vm_compute; reflexivity|vm_compute; discriminate].
Defined.

(** X3: a request turned away by the limit is not counted: when the read
    answers a counter that has reached the threshold, the wrapped function
    throws "Rate limit exceeded" after that one [GET], logs nothing and
    leaves the store as it was, so that the deadline of the counter is not
    moved either.  In [part_000] this comes before the check of
    [refreshRate]: an invalid rate does not change the error. *)
Theorem rate_limited_request_is_not_counted :
  (∀ _dict client value _context env args ip s,
     let k := Part000.key ip (name _context) (date env) in
     gnzContextArgs ip args →
     getFault env = None →
     limitReached (redis_get (epochMs (date env)) k s) (Part000.limitOrDefault _dict) = true →
     Part000.wrapped _dict client value _context env args s
     = {| outcome := Throw rateLimitExceeded; final := s; events := [EGet k] |})
  ∧ (∀ _dict client value _context env args ip s,
     let k := IndexTs.key ip (date env) in
     gnzContextArgs ip args →
     getFault env = None →
     limitReached (redis_get (epochMs (date env)) k s) (IndexTs.limitOrDefault _dict) = true →
     IndexTs.wrapped _dict (Some client) value _context env args s
     = {| outcome := Throw rateLimitExceeded; final := s; events := [EGet k] |}).
Proof.
  split.
  - intros _dict client value _context env args ip s k Hctx Hget Hlim. subst k.
    rewrite Part000_wrapped_gate, (Part000_gate_context _ _ _ _ _ ip) by done.
    cbv zeta. by rewrite Hget, Hlim.
  - intros _dict client value _context env args ip s k Hctx Hget Hlim. subst k.
    rewrite IndexTs_wrapped_gate, (IndexTs_gate_context _ _ _ _ _ ip) by done.
    cbv zeta. by rewrite Hget, Hlim.
Qed.

Lemma rate_limited_request_is_not_counted_witness :
  let k := Part000.key Sample.ip "hello" (Sample.utc 0) in
  let s := {[ k := {| count := 50; expiresAt := Some 1000 |} ]} in
  Part000.wrapped (Sample.withRefreshRate (-1)) Sample.client Sample.method Sample.hello
    (healthy (Sample.utc 0)) Sample.args s
  = {| outcome := Throw rateLimitExceeded; final := s; events := [EGet k] |}.
Proof.
  cbv zeta.
  destruct rate_limited_request_is_not_counted as [Hpart _].
  apply (Hpart (Sample.withRefreshRate (-1)) Sample.client Sample.method Sample.hello
           (healthy (Sample.utc 0)) Sample.args Sample.ip).
  - by eexists _, _.
  - reflexivity.
  - vm_compute. reflexivity.
Defined.

(** ** Arguments that are not a usable context *)

(** X4: when the first argument is [undefined] or [null], reading its
    [isGnzContext] throws a TypeError, in both versions: the wrapped function
    throws that error (no BadRequest in [part_000], no warning in
    [index.ts]), logs nothing, does no operation on the store and does not
    call the method. *)
Theorem nullish_first_argument_is_a_type_error (v : JsValue) (rest : list JsValue) :
  v = JsUndefined ∨ v = JsNull →
  ∃ message,
    (∀ _dict client value _context env s,
       Part000.wrapped _dict client value _context env (v :: rest) s
       = {| outcome := Throw (TypeError message); final := s; events := [] |})
    ∧ (∀ _dict redisClient value _context env s,
       IndexTs.wrapped _dict redisClient value _context env (v :: rest) s
       = {| outcome := Throw (TypeError message); final := s; events := [] |}).
Proof.
  intros [->| ->]; eexists; split; intros; run; reflexivity.
Qed.

Lemma nullish_first_argument_is_a_type_error_witness :
  ∃ message,
    (∀ _dict client value _context env s,
       Part000.wrapped _dict client value _context env [JsNull; JsPrimitive "42"] s
       = {| outcome := Throw (TypeError message); final := s; events := [] |})
    ∧ (∀ _dict redisClient value _context env s,
       IndexTs.wrapped _dict redisClient value _context env [JsNull; JsPrimitive "42"] s
       = {| outcome := Throw (TypeError message); final := s; events := [] |}).
Proof.
  apply (nullish_first_argument_is_a_type_error JsNull [JsPrimitive "42"]).
  right. reflexivity.
Defined.

(** X5: a first argument with a truthy [isGnzContext] whose path
    [requestContext.http.sourceIp] cannot be read makes the read of the
    address throw a TypeError inside the [try] block, before any operation on
    the store: without [requestContext] it is the read of [http] that
    throws, with a [requestContext] that has no [http] it is the read of
    [sourceIp].  [part_000] logs its hint and throws the TypeError, and the
    method is not called; [index.ts] logs the hint and the error, and calls
    the method. *)
Theorem context_without_source_ip (o : JsObject) (rest : list JsValue) (error : JsError) :
  isGnzContext o = true →
  (∃ held, requestContext o = MissingRequestContext held
           ∧ error = missingProperty held "http")
  ∨ (∃ held, requestContext o = MissingHttp held
             ∧ error = missingProperty held "sourceIp") →
  let args := JsObj o :: rest in
  (∀ _dict client value _context env s,
     Part000.wrapped _dict client value _context env args s
     = {| outcome := Throw error; final := s; events := [ELog Part000.redisHint] |})
  ∧ (∀ _dict client value _context env s,
     IndexTs.wrapped _dict (Some client) value _context env args s
     = {| outcome := value args;
          final := s;
          events := [ELog IndexTs.redisHint; ELogError error; EInvoke args] |}).
Proof.
  destruct o as [g rc]. simpl.
  intros -> [(held & -> & ->)|(held & -> & ->)]; split.
  - intros. run. reflexivity.
  - intros. run. destruct (value _); reflexivity.
  - intros. run. reflexivity.
  - intros. run. destruct (value _); reflexivity.
Qed.

Lemma context_without_source_ip_witness :
  let args := [JsObj {| isGnzContext := true; requestContext := MissingHttp Undefined |}] in
  missingProperty Undefined "sourceIp"
  = TypeError "Cannot read properties of undefined (reading 'sourceIp')"
  ∧ Part000.wrapped Sample.defaults Sample.client Sample.method Sample.hello
      (healthy (Sample.utc 0)) args ∅
    = {| outcome := Throw (missingProperty Undefined "sourceIp");
         final := ∅;
         events := [ELog Part000.redisHint] |}.
Proof.
  cbv zeta. split; [reflexivity|].
  pose proof (context_without_source_ip
                {| isGnzContext := true; requestContext := MissingHttp Undefined |} []
                (missingProperty Undefined "sourceIp") eq_refl
                (or_intror (ex_intro _ Undefined (conj eq_refl eq_refl)))) as Hboth.
  cbv zeta in Hboth. destruct Hboth as [Hpart _].
  exact (Hpart Sample.defaults Sample.client Sample.method Sample.hello
           (healthy (Sample.utc 0)) ∅).
Defined.

(** ** A refresh rate of zero *)

(** X6: in [part_000] a [refreshRate] of 0 is the same as no [refreshRate]:
    for every request the wrapped function does exactly what it does with
    the option left out, so 0 raises no error and the time to live is the
    default of 59 seconds. *)
Theorem zero_refresh_rate_behaves_as_absent
    (url : option string) (l : option Z) (client : RedisClient) (value : Handler)
    (_context : DecoratorContext) (env : Env) (args : list JsValue)
    (s : gmap string Entry) :
  Part000.wrapped
    {| Part000.dbUrl := url; Part000.limit := l; Part000.refreshRate := Some 0 |}
    client value _context env args s
  = Part000.wrapped
      {| Part000.dbUrl := url; Part000.limit := l; Part000.refreshRate := None |}
      client value _context env args s.
Proof.
  unfold Part000.wrapped, Part000.limiterGate.
  change (Part000.refreshRateBelowOne
            {| Part000.dbUrl := url; Part000.limit := l; Part000.refreshRate := Some 0 |})
    with false.
  change (Part000.refreshRateOrDefault
            {| Part000.dbUrl := url; Part000.limit := l; Part000.refreshRate := Some 0 |})
    with 59.
  reflexivity.
Qed.

(** ** The construction, when it succeeds *)



(** ** The reconnect budget over the life of the client *)

Lemma afterEvents_errors evs : ∀ c,
  afterEvents evs c = Part000.afterErrors (errorsOf evs) c.
Proof.
  induction evs as [|[error|] evs IH]; intros c.
  - reflexivity.
  - change (afterEvents (ErrorEvent error :: evs) c)
      with (afterEvents evs (Part000.onError error c).1.2).
    change (errorsOf (ErrorEvent error :: evs)) with (error :: errorsOf evs).
    by rewrite afterErrors_cons, IH.
  - change (afterEvents (ReconnectingEvent :: evs) c) with (afterEvents evs c).
    change (errorsOf (ReconnectingEvent :: evs)) with (errorsOf evs).
    apply IH.
Qed.

(** X8: the count of errors is never reset.  After any sequence of "error"
    and "reconnecting" events, [retryCount] is the number of error events
    since the construction, whatever reconnections happened in between; the
    retry strategy answers 1000 ms while that number is at most 5 and
    [undefined] afterwards, and the client has been disconnected by the
    listener exactly when the number is above 5. *)
Theorem reconnect_budget_is_never_restored (evs : list ClientEvent) :
  let c := afterEvents evs Part000.connector0 in
  let n := length (errorsOf evs) in
  Part000.retryCount c = Z.of_nat n
  ∧ Part000.retryStrategy c = (if decide (n ≤ 5)%nat then Some 1000 else None)
  ∧ Part000.disconnected c = bool_decide (5 < n)%nat.
Proof.
  cbv zeta. rewrite afterEvents_errors.
  assert (Part000.retryCount (Part000.afterErrors (errorsOf evs) Part000.connector0)
          = Z.of_nat (length (errorsOf evs))) as Hcount.
  { rewrite afterErrors_retryCount. simpl. lia. }
  split; [done|split].
  - unfold Part000.retryStrategy. rewrite Hcount.
    destruct (Z.ltb_spec 5 (Z.of_nat (length (errorsOf evs)))); case_decide; done || lia.
  - rewrite afterErrors_disconnected by done. apply bool_decide_ext. simpl. lia.
Qed.

(** X9: what the "error" listener does depends on the number of errors
    before: each of the first five error events logs one line and returns;
    every later one logs two lines, calls [redisClient.disconnect()] and
    throws the error it was given. *)
Theorem error_listener_absorbs_five_then_throws (errors : list JsError) (error : JsError) :
  let c := Part000.afterErrors errors Part000.connector0 in
  let n := Z.of_nat (length errors) in
  let line := ELog ("Could not connect to the Redis database. " +:+ Part000.errorText error) in
  Part000.onError error c
  = if decide (length errors < 5)%nat
    then (Normal tt,
          {| Part000.retryCount := n + 1; Part000.disconnected := false |},
          [line])
    else (Throw error,
          {| Part000.retryCount := n + 1; Part000.disconnected := true |},
          [line; ELog Part000.stoppingPolling; EDisconnect]).
Proof.
  cbv zeta. unfold Part000.onError. cbv zeta.
  assert (Part000.retryCount (Part000.afterErrors errors Part000.connector0)
          = Z.of_nat (length errors)) as Hcount.
  { rewrite afterErrors_retryCount. simpl. lia. }
  rewrite Hcount, afterErrors_disconnected by done.
  destruct (Z.ltb_spec 5 (Z.of_nat (length errors) + 1)); case_decide; try lia.
  - reflexivity.
  - rewrite bool_decide_eq_false_2; [reflexivity|simpl; lia].
Qed.

(** ** One counter per address *)

Lemma append_assoc (a b c : string) : (a +:+ b) +:+ c = a +:+ (b +:+ c).
Proof.
  induction a as [|x a IH]; [reflexivity|].
  rewrite !append_cons. by rewrite IH.
Qed.

Lemma colonFree_append (a b : string) :
  colonFree a = true → colonFree b = true → colonFree (a +:+ b) = true.
Proof.
  intros Ha Hb. induction a as [|x a IH]; [done|].
  rewrite append_cons. cbn [colonFree] in *.
  apply andb_true_iff in Ha as [Hx Ha]. rewrite Hx. by apply IH.
Qed.

Lemma IndexTs_key_inj_ip ip1 ip2 d1 d2 :
  IndexTs.key ip1 d1 = IndexTs.key ip2 d2 → ip1 = ip2.
Proof.
  unfold IndexTs.key. intros Heq.
  by apply last_colon_splits in Heq as [-> _];
    [|apply colonFree_minutes, getMinutes_range..].
Qed.

Lemma Part000_key_regroup ip scope d :
  Part000.key ip scope d = (ip +:+ ":" +:+ scope) +:+ ":" +:+ pretty (getMinutes d).
Proof. unfold Part000.key. by rewrite !append_assoc. Qed.

Lemma Part000_key_inj_ip ip1 ip2 scope1 scope2 d1 d2 :
  colonFree scope1 = true → colonFree scope2 = true →
  Part000.key ip1 scope1 d1 = Part000.key ip2 scope2 d2 →
  ip1 = ip2 ∧ scope1 = scope2 ∧ getMinutes d1 = getMinutes d2.
Proof.
  intros Hs1 Hs2. rewrite !Part000_key_regroup. intros Heq.
  apply last_colon_splits in Heq as [Hhead Hm];
    [|apply colonFree_minutes, getMinutes_range..].
  apply last_colon_splits in Hhead as [-> ->]; [|done..].
  split; [done|split; [done|]]. by apply (inj pretty).
Qed.

(** A request of [index.ts] changes no counter but the one under its key. *)
Lemma IndexTs_frame _dict redisClient value _context env args ip k' s :
  gnzContextArgs ip args →
  IndexTs.key ip (date env) ≠ k' →
  final (IndexTs.wrapped _dict redisClient value _context env args s) !! k' = s !! k'.
Proof.
  intros Hctx Hne.
  rewrite IndexTs_wrapped_gate, (IndexTs_gate_context _ _ _ _ _ ip) by done. cbv zeta.
  assert (∀ (g : Run unit), final g !! k' = s !! k' →
    final (match outcome g with
           | Normal _ => {| outcome := value args; final := final g;
                            events := events g ++ [EInvoke args] |}
           | Throw error => {| outcome := Throw error; final := final g;
                               events := events g |}
           end) !! k' = s !! k') as Hwrap.
  { intros g Hg. by destruct (outcome g). }
  apply Hwrap.
  repeat case_match; simpl; try done.
  by rewrite redis_expire_other, redis_incr_other.
Qed.

(** X10: two addresses never share a counter.  In [index.ts] the keys of
    requests from different addresses differ, whatever the dates; in
    [part_000] they differ when the names of the methods have no colon (as
    identifiers have none), whatever the names and the dates.  Serving a
    request from one address then leaves the counter of the other address as
    it was.  A name with a colon can make two identities of [part_000] meet
    in one key: the key of address [a:b] and name [c] is the key of address
    [a] and name [b:c]. *)
Theorem addresses_have_separate_counters :
  (∀ _dict client value _context env args ip ip' scope' d' s,
     gnzContextArgs ip args →
     colonFree (name _context) = true →
     colonFree scope' = true →
     ip ≠ ip' →
     Part000.key ip (name _context) (date env) ≠ Part000.key ip' scope' d'
     ∧ final (Part000.wrapped _dict client value _context env args s)
         !! Part000.key ip' scope' d'
       = s !! Part000.key ip' scope' d')
  ∧ (∀ _dict redisClient value _context env args ip ip' d' s,
     gnzContextArgs ip args →
     ip ≠ ip' →
     IndexTs.key ip (date env) ≠ IndexTs.key ip' d'
     ∧ final (IndexTs.wrapped _dict redisClient value _context env args s)
         !! IndexTs.key ip' d'
       = s !! IndexTs.key ip' d')
  ∧ (∀ a b c d,
     Part000.key (a +:+ ":" +:+ b) c d = Part000.key a (b +:+ ":" +:+ c) d).
Proof.
  split; [|split].
  - intros _dict client value _context env args ip ip' scope' d' s Hctx Hs Hs' Hip.
    assert (Part000.key ip (name _context) (date env) ≠ Part000.key ip' scope' d') as Hkeys.
    { by intros [? _]%Part000_key_inj_ip. }
    split; [done|]. by eapply Part000_frame.
  - intros _dict redisClient value _context env args ip ip' d' s Hctx Hip.
    assert (IndexTs.key ip (date env) ≠ IndexTs.key ip' d') as Hkeys.
    { by intros ?%IndexTs_key_inj_ip. }
    split; [done|]. by eapply IndexTs_frame.
  - intros a b c d. unfold Part000.key. by rewrite !append_assoc.
Qed.

Lemma addresses_have_separate_counters_witness :
  let other := Part000.key "198.51.100.9" "hello" (Sample.utc 0) in
  let s := {[ other := {| count := 7; expiresAt := Some 59000 |} ]} in
  final (Part000.wrapped Sample.defaults Sample.client Sample.method Sample.hello
           (healthy (Sample.utc 1000)) Sample.args s) !! other
  = s !! other.
Proof.
  cbv zeta.
  destruct addresses_have_separate_counters as [Hpart _].
  eapply (Hpart Sample.defaults Sample.client Sample.method Sample.hello
            (healthy (Sample.utc 1000)) Sample.args Sample.ip "198.51.100.9" "hello").
  - by eexists _, _.
  - reflexivity.
  - reflexivity.
  - discriminate.
Defined.

(** ** After the time to live *)

(** X11: a counter is forgotten one time to live after the last admitted
    request.  When a request with a GnzContext has been admitted at [d], a
    request of the same key that arrives at [d'], a time to live or more
    later, finds no counter: it is admitted whatever the limit and leaves
    the counter at one.  Requests turned away in between do not change this,
    because they leave the store as it was. *)
Theorem readmitted_after_time_to_live :
  (∀ _dict client value _context d d' args ip s,
     let k := Part000.key ip (name _context) d in
     let ttl := Part000.refreshRateOrDefault _dict in
     gnzContextArgs ip args →
     Part000.refreshRateBelowOne _dict = false →
     limitReached (redis_get (epochMs d) k s) (Part000.limitOrDefault _dict) = false →
     getMinutes d = getMinutes d' →
     epochMs d + ttl * 1000 ≤ epochMs d' →
     let s1 := final (Part000.wrapped _dict client value _context (healthy d) args s) in
     let r := Part000.wrapped _dict client value _context (healthy d') args s1 in
     redis_get (epochMs d') k s1 = None
     ∧ admitted value args r
     ∧ final r !! k = Some {| count := 1; expiresAt := Some (epochMs d' + ttl * 1000) |})
  ∧ (∀ _dict client value _context d d' args ip s,
     let k := IndexTs.key ip d in
     gnzContextArgs ip args →
     limitReached (redis_get (epochMs d) k s) (IndexTs.limitOrDefault _dict) = false →
     getMinutes d = getMinutes d' →
     epochMs d + 59 * 1000 ≤ epochMs d' →
     let s1 := final (IndexTs.wrapped _dict (Some client) value _context (healthy d) args s) in
     let r := IndexTs.wrapped _dict (Some client) value _context (healthy d') args s1 in
     redis_get (epochMs d') k s1 = None
     ∧ admitted value args r
     ∧ final r !! k = Some {| count := 1; expiresAt := Some (epochMs d' + 59 * 1000) |}).
Proof.
  split.
  - intros _dict client value _context d d' args ip s k ttl Hctx Hrate Hlim Hmin Hlate.
    subst k ttl. cbv zeta.
    pose proof (refreshRateOrDefault_pos _ Hrate) as Hpos.
    assert (Part000.key ip (name _context) d' = Part000.key ip (name _context) d) as Hkey.
    { unfold Part000.key. by rewrite Hmin. }
    rewrite (Part000_wrapped_gate _ _ _ _ (healthy d)),
      (Part000_gate_context _ _ _ _ _ ip) by done.
    cbv zeta. simpl. rewrite Hlim, Hrate. simpl.
    pose proof (redis_get_expired (epochMs d) (epochMs d')
                  (Part000.key ip (name _context) d) _ s Hpos Hlate) as Hgone.
    split; [done|].
    rewrite Part000_wrapped_gate, (Part000_gate_context _ _ _ _ _ ip) by done.
    cbv zeta. simpl. rewrite Hkey, Hgone, Hrate. simpl.
    split; [by split|].
    rewrite redis_incr_expire_lookup by done.
    by rewrite (countAt_absent _ _ _ Hgone).
  - intros _dict client value _context d d' args ip s k Hctx Hlim Hmin Hlate.
    subst k. cbv zeta.
    assert (IndexTs.key ip d' = IndexTs.key ip d) as Hkey.
    { unfold IndexTs.key. by rewrite Hmin. }
    rewrite (IndexTs_wrapped_gate _ _ _ _ (healthy d)),
      (IndexTs_gate_context _ _ _ _ _ ip) by done.
    cbv zeta. simpl. rewrite Hlim. simpl.
    pose proof (redis_get_expired (epochMs d) (epochMs d')
                  (IndexTs.key ip d) 59 s eq_refl Hlate) as Hgone.
    split; [done|].
    rewrite IndexTs_wrapped_gate, (IndexTs_gate_context _ _ _ _ _ ip) by done.
    cbv zeta. simpl. rewrite Hkey, Hgone. simpl.
    split; [by split|].
    rewrite redis_incr_expire_lookup by done.
    by rewrite (countAt_absent _ _ _ Hgone).
Qed.

Lemma readmitted_after_time_to_live_witness :
  let first := Sample.utc 300000 in
  let next := Sample.utc 3900000 in
  let s1 := final (Part000.wrapped (Sample.withLimit 1) Sample.client Sample.method
                     Sample.hello (healthy first) Sample.args ∅) in
  admitted Sample.method Sample.args
    (Part000.wrapped (Sample.withLimit 1) Sample.client Sample.method Sample.hello
       (healthy next) Sample.args s1).
Proof.
  cbv zeta.
  destruct readmitted_after_time_to_live as [Hpart _].
  eapply (Hpart (Sample.withLimit 1) Sample.client Sample.method Sample.hello
            (Sample.utc 300000) (Sample.utc 3900000) Sample.args Sample.ip ∅).
  - by eexists _, _.
  - reflexivity.
  - vm_compute. reflexivity.
  - reflexivity.
  - vm_compute. discriminate.
Defined.

(** ** A burst across the minute boundary *)

Lemma serve_app {A} (a b : list (M A)) : ∀ s,
  serve (a ++ b) s = serve a s ++ serve b (storeAfter a s).
Proof.
  induction a as [|m a IH]; intros s; [reflexivity|].
  cbn [app serve storeAfter]. cbv zeta. by rewrite IH.
Qed.

Lemma length_serve {A} (a : list (M A)) : ∀ s, length (serve a s) = length a.
Proof. induction a as [|m a IH]; intros s; [done|]. cbn [serve]. cbv zeta. simpl. by rewrite IH. Qed.

Lemma redis_get_lookup now k s s' : s' !! k = s !! k → redis_get now k s' = redis_get now k s.
Proof. unfold redis_get. by intros ->. Qed.

Section BelowThreshold.

Context (step : Date → M JsValue) (inWindow : Date → Prop).
Context (k : string) (ttl threshold : Z) (value : Handler) (args : list JsValue).

Hypothesis threshold_pos : 1 ≤ threshold.
Hypothesis ttl_pos : 0 < ttl.

Hypothesis step_below : ∀ d s,
  inWindow d →
  limitReached (redis_get (epochMs d) k s) threshold = false →
  step d s = {| outcome := value args;
                final := redis_expire (epochMs d) k ttl (redis_incr (epochMs d) k s);
                events := [EGet k; EMulti k k ttl; EInvoke args] |}.

(** Requests that all fit below the threshold are all admitted and change
    no counter but their own. *)
Lemma window_admits n : ∀ dates s,
  length dates = n →
  Forall inWindow dates →
  spaced (ttl * 1000) (epochMs <$> dates) →
  (∀ d, head dates = Some d → countAt (epochMs d) k s + Z.of_nat n ≤ threshold) →
  Forall (admitted value args) (serve (step <$> dates) s)
  ∧ ∀ k', k ≠ k' → storeAfter (step <$> dates) s !! k' = s !! k'.
Proof.
  induction n as [|n IH]; intros dates s Hlen Hwin Hgap Hcount.
  - destruct dates; simplify_eq/=. by split.
  - destruct dates as [|d dates]; simplify_eq/=.
    apply Forall_cons_1 in Hwin as [Hd Hwin].
    specialize (Hcount d eq_refl).
    rewrite step_below; [|done|]; last first.
    { rewrite limitReached_countAt by done. apply bool_decide_eq_false_2. lia. }
    simpl.
    destruct (IH dates (redis_expire (epochMs d) k ttl (redis_incr (epochMs d) k s)))
      as [Hadm Hframe]; [done|done| | |].
    { by destruct dates as [|d' dates]; [|destruct Hgap]. }
    { intros d' Hhead. destruct dates as [|d'' dates]; simplify_eq/=.
      destruct Hgap as [[Hle Hlt] _]. unfold countAt at 1.
      rewrite redis_get_incr_expire by done. simpl. lia. }
    split.
    + constructor; [by split|done].
    + intros k' Hk'. rewrite Hframe by done.
      by rewrite redis_expire_other, redis_incr_other.
Qed.

End BelowThreshold.

Lemma minute_keys_differ minute tz : (minute + tz) mod 60 ≠ (minute + 1 + tz) mod 60.
Proof.
  intros Heq%Z.cong_iff_0.
  replace (minute + tz - (minute + 1 + tz)) with (-1) in Heq by lia. done.
Qed.

(** X12: the limit starts afresh at each minute boundary.  With a limit [L]
    of at least 1, [L] requests of one identity in one calendar minute
    followed by [L] requests in the next minute, each group spaced by less
    than the time to live, on a store that answers and holds no counter for
    either minute when its first request arrives, are all admitted: [2 L]
    requests pass, however close to the boundary they are. *)
Theorem burst_across_minute_boundary :
  (∀ _dict client value _context args ip dates1 dates2 minute tz s,
     let L := Part000.limitOrDefault _dict in
     let ttl := Part000.refreshRateOrDefault _dict in
     gnzContextArgs ip args →
     1 ≤ L →
     Part000.refreshRateBelowOne _dict = false →
     length dates1 = Z.to_nat L →
     length dates2 = Z.to_nat L →
     sameWindow minute tz dates1 →
     sameWindow (minute + 1) tz dates2 →
     spaced (ttl * 1000) (epochMs <$> dates1) →
     spaced (ttl * 1000) (epochMs <$> dates2) →
     (∀ d, head dates1 = Some d →
           redis_get (epochMs d) (Part000.key ip (name _context) d) s = None) →
     (∀ d, head dates2 = Some d →
           redis_get (epochMs d) (Part000.key ip (name _context) d) s = None) →
     let rs := serve (part000Requests _dict client value _context args (dates1 ++ dates2)) s in
     Forall (admitted value args) rs ∧ length rs = (2 * Z.to_nat L)%nat)
  ∧ (∀ _dict client value _context args ip dates1 dates2 minute tz s,
     let L := IndexTs.limitOrDefault _dict in
     gnzContextArgs ip args →
     1 ≤ L →
     length dates1 = Z.to_nat L →
     length dates2 = Z.to_nat L →
     sameWindow minute tz dates1 →
     sameWindow (minute + 1) tz dates2 →
     spaced (59 * 1000) (epochMs <$> dates1) →
     spaced (59 * 1000) (epochMs <$> dates2) →
     (∀ d, head dates1 = Some d → redis_get (epochMs d) (IndexTs.key ip d) s = None) →
     (∀ d, head dates2 = Some d → redis_get (epochMs d) (IndexTs.key ip d) s = None) →
     let rs := serve (indexTsRequests _dict client value _context args (dates1 ++ dates2)) s in
     Forall (admitted value args) rs ∧ length rs = (2 * Z.to_nat L)%nat).
Proof.
  split.
  - intros _dict client value _context args ip dates1 dates2 minute tz s L ttl
      Hctx HL Hrate Hlen1 Hlen2 Hwin1 Hwin2 Hgap1 Hgap2 Hfresh1 Hfresh2.
    subst L ttl. cbv zeta.
    pose proof (refreshRateOrDefault_pos _ Hrate) as Hpos.
    set (key m := ip +:+ ":" +:+ name _context +:+ ":" +:+ pretty ((m + tz) mod 60)).
    assert (∀ m d, calendarMinute d = m ∧ tzMinutes d = tz →
                   Part000.key ip (name _context) d = key m) as Hkey.
    { intros m d [Hm Htz]. unfold Part000.key, key.
      by rewrite getMinutes_calendarMinute, Hm, Htz. }
    assert (key minute ≠ key (minute + 1)) as Hne.
    { unfold key. intros Heq.
      do 4 apply (inj (String.append _)) in Heq. apply (inj pretty) in Heq.
      by apply minute_keys_differ in Heq. }
    assert (∀ m d s', calendarMinute d = m ∧ tzMinutes d = tz →
              limitReached (redis_get (epochMs d) (key m) s')
                (Part000.limitOrDefault _dict) = false →
              Part000.wrapped _dict client value _context (healthy d) args s'
              = {| outcome := value args;
                   final := redis_expire (epochMs d) (key m)
                              (Part000.refreshRateOrDefault _dict)
                              (redis_incr (epochMs d) (key m) s');
                   events := [EGet (key m);
                              EMulti (key m) (key m) (Part000.refreshRateOrDefault _dict);
                              EInvoke args] |}) as Hstep.
    { intros m d s' Hd Hlim.
      rewrite Part000_wrapped_gate, (Part000_gate_context _ _ _ _ _ ip) by done.
      cbv zeta. simpl. rewrite (Hkey m d Hd), Hlim, Hrate. reflexivity. }
    unfold part000Requests. rewrite fmap_app, serve_app.
    destruct (window_admits _ (λ d, calendarMinute d = minute ∧ tzMinutes d = tz)
                (key minute) (Part000.refreshRateOrDefault _dict)
                (Part000.limitOrDefault _dict) value args HL Hpos (Hstep minute)
                (Z.to_nat (Part000.limitOrDefault _dict)) dates1 s)
      as [Hadm1 Hframe]; [done..| |].
    { intros d Hhead. specialize (Hfresh1 d Hhead).
      assert (calendarMinute d = minute ∧ tzMinutes d = tz) as Hd.
      { destruct dates1; simplify_eq/=. by apply Forall_cons_1 in Hwin1 as [? _]. }
      rewrite (Hkey _ d Hd) in Hfresh1. rewrite (countAt_absent _ _ _ Hfresh1). lia. }
    destruct (window_admits _ (λ d, calendarMinute d = minute + 1 ∧ tzMinutes d = tz)
                (key (minute + 1)) (Part000.refreshRateOrDefault _dict)
                (Part000.limitOrDefault _dict) value args HL Hpos (Hstep (minute + 1))
                (Z.to_nat (Part000.limitOrDefault _dict)) dates2
                (storeAfter
                   ((λ d, Part000.wrapped _dict client value _context (healthy d) args)
                      <$> dates1) s))
      as [Hadm2 _]; [done..| |].
    { intros d Hhead. specialize (Hfresh2 d Hhead).
      assert (calendarMinute d = minute + 1 ∧ tzMinutes d = tz) as Hd.
      { destruct dates2; simplify_eq/=. by apply Forall_cons_1 in Hwin2 as [? _]. }
      rewrite (Hkey _ d Hd) in Hfresh2.
      match goal with
      | |- countAt ?t ?kk ?st + _ ≤ _ => rewrite (countAt_absent t kk st); [lia|]
      end.
      by rewrite (redis_get_lookup _ _ _ _ (Hframe _ Hne)). }
    split; [by apply Forall_app|].
    rewrite length_app, !length_serve, !length_fmap. lia.
  - intros _dict client value _context args ip dates1 dates2 minute tz s L
      Hctx HL Hlen1 Hlen2 Hwin1 Hwin2 Hgap1 Hgap2 Hfresh1 Hfresh2.
    subst L. cbv zeta.
    set (key m := ip +:+ ":" +:+ pretty ((m + tz) mod 60)).
    assert (∀ m d, calendarMinute d = m ∧ tzMinutes d = tz →
                   IndexTs.key ip d = key m) as Hkey.
    { intros m d [Hm Htz]. unfold IndexTs.key, key.
      by rewrite getMinutes_calendarMinute, Hm, Htz. }
    assert (key minute ≠ key (minute + 1)) as Hne.
    { unfold key. intros Heq.
      do 2 apply (inj (String.append _)) in Heq. apply (inj pretty) in Heq.
      by apply minute_keys_differ in Heq. }
    assert (∀ m d s', calendarMinute d = m ∧ tzMinutes d = tz →
              limitReached (redis_get (epochMs d) (key m) s')
                (IndexTs.limitOrDefault _dict) = false →
              IndexTs.wrapped _dict (Some client) value _context (healthy d) args s'
              = {| outcome := value args;
                   final := redis_expire (epochMs d) (key m) 59
                              (redis_incr (epochMs d) (key m) s');
                   events := [EGet (key m); EMulti (key m) (key m) 59;
                              EInvoke args] |}) as Hstep.
    { intros m d s' Hd Hlim.
      rewrite IndexTs_wrapped_gate, (IndexTs_gate_context _ _ _ _ _ ip) by done.
      cbv zeta. simpl. rewrite (Hkey m d Hd), Hlim. reflexivity. }
    unfold indexTsRequests. rewrite fmap_app, serve_app.
    destruct (window_admits _ (λ d, calendarMinute d = minute ∧ tzMinutes d = tz)
                (key minute) 59 (IndexTs.limitOrDefault _dict) value args HL eq_refl
                (Hstep minute) (Z.to_nat (IndexTs.limitOrDefault _dict)) dates1 s)
      as [Hadm1 Hframe]; [done..| |].
    { intros d Hhead. specialize (Hfresh1 d Hhead).
      assert (calendarMinute d = minute ∧ tzMinutes d = tz) as Hd.
      { destruct dates1; simplify_eq/=. by apply Forall_cons_1 in Hwin1 as [? _]. }
      rewrite (Hkey _ d Hd) in Hfresh1. rewrite (countAt_absent _ _ _ Hfresh1). lia. }
    destruct (window_admits _ (λ d, calendarMinute d = minute + 1 ∧ tzMinutes d = tz)
                (key (minute + 1)) 59 (IndexTs.limitOrDefault _dict) value args HL eq_refl
                (Hstep (minute + 1)) (Z.to_nat (IndexTs.limitOrDefault _dict)) dates2
                (storeAfter
                   ((λ d, IndexTs.wrapped _dict (Some client) value _context (healthy d) args)
                      <$> dates1) s))
      as [Hadm2 _]; [done..| |].
    { intros d Hhead. specialize (Hfresh2 d Hhead).
      assert (calendarMinute d = minute + 1 ∧ tzMinutes d = tz) as Hd.
      { destruct dates2; simplify_eq/=. by apply Forall_cons_1 in Hwin2 as [? _]. }
      rewrite (Hkey _ d Hd) in Hfresh2.
      match goal with
      | |- countAt ?t ?kk ?st + _ ≤ _ => rewrite (countAt_absent t kk st); [lia|]
      end.
      by rewrite (redis_get_lookup _ _ _ _ (Hframe _ Hne)). }
    split; [by apply Forall_app|].
    rewrite length_app, !length_serve, !length_fmap. lia.
Qed.

Lemma burst_across_minute_boundary_witness :
  let dates1 := [Sample.utc 58000; Sample.utc 59000] in
  let dates2 := [Sample.utc 60000; Sample.utc 61000] in
  let rs := serve (part000Requests (Sample.withLimit 2) Sample.client Sample.method
                     Sample.hello Sample.args (dates1 ++ dates2)) ∅ in
  Forall (admitted Sample.method Sample.args) rs ∧ length rs = 4%nat.
Proof.
  cbv zeta.
  destruct burst_across_minute_boundary as [Hpart _].
  apply (Hpart (Sample.withLimit 2) Sample.client Sample.method Sample.hello Sample.args
           Sample.ip [Sample.utc 58000; Sample.utc 59000]
           [Sample.utc 60000; Sample.utc 61000] 0 0 ∅).
  - by eexists _, _.
  - vm_compute. discriminate.
  - reflexivity.
  - reflexivity.
  - reflexivity.
  - repeat constructor.
  - repeat constructor.
  - change (Part000.refreshRateOrDefault (Sample.withLimit 2)) with 59. simpl. lia.
  - change (Part000.refreshRateOrDefault (Sample.withLimit 2)) with 59. simpl. lia.
  - intros d [= <-]. vm_compute. reflexivity.
  - intros d [= <-]. vm_compute. reflexivity.
Defined.

(** ** The operations on the store, for every request *)

(** X13: whatever the arguments, the options and the state of the store, one
    call of the wrapped function reads the store at most once and writes to
    it at most once, the write coming after the read and on the key that was
    read: the key is computed from one [Date] and is the same for [GET],
    [INCR] and [EXPIRE].  The time to live given to [EXPIRE] is positive, so
    the write never deletes the counter.  The store changes only through
    that write, and the method is called at most once. *)
Theorem store_operations_of_a_request :
  (∀ _dict client value _context env args s,
     let r := Part000.wrapped _dict client value _context env args s in
     let ttl := Part000.refreshRateOrDefault _dict in
     let now := epochMs (date env) in
     (length (invocations (events r)) ≤ 1)%nat
     ∧ ((storeOps (events r) = [] ∧ final r = s)
        ∨ ∃ ip,
            gnzContextArgs ip args
            ∧ ((storeOps (events r) = [EGet (Part000.key ip (name _context) (date env))]
                ∧ final r = s)
               ∨ (storeOps (events r)
                  = [EGet (Part000.key ip (name _context) (date env));
                     EMulti (Part000.key ip (name _context) (date env))
                       (Part000.key ip (name _context) (date env)) ttl]
                  ∧ 0 < ttl
                  ∧ (final r = s
                     ∨ final r
                       = redis_expire now (Part000.key ip (name _context) (date env)) ttl
                           (redis_incr now (Part000.key ip (name _context) (date env)) s))))))
  ∧ (∀ _dict redisClient value _context env args s,
     let r := IndexTs.wrapped _dict redisClient value _context env args s in
     let now := epochMs (date env) in
     (length (invocations (events r)) ≤ 1)%nat
     ∧ ((storeOps (events r) = [] ∧ final r = s)
        ∨ ∃ ip,
            gnzContextArgs ip args
            ∧ ((storeOps (events r) = [EGet (IndexTs.key ip (date env))] ∧ final r = s)
               ∨ (storeOps (events r)
                  = [EGet (IndexTs.key ip (date env));
                     EMulti (IndexTs.key ip (date env)) (IndexTs.key ip (date env)) 59]
                  ∧ (final r = s
                     ∨ final r
                       = redis_expire now (IndexTs.key ip (date env)) 59
                           (redis_incr now (IndexTs.key ip (date env)) s)))))).
Proof.
  assert (∀ (g : Run unit) (value : Handler) args,
            invocations (events g) = [] →
            (length (invocations (events
               (match outcome g with
                | Normal _ => {| outcome := value args; final := final g;
                                 events := events g ++ [EInvoke args] |}
                | Throw error => {| outcome := Throw error; final := final g;
                                    events := events g |}
                end))) ≤ 1)%nat) as Hinv.
  { intros g value args Hg. destruct (outcome g); simpl.
    - rewrite invocations_app, Hg. simpl. lia.
    - rewrite Hg. simpl. lia. }
  split.
  - intros _dict client value _context env args s. cbv zeta.
    split.
    { rewrite Part000_wrapped_gate. cbv zeta. apply Hinv, Part000_gate_invocations. }
    destruct args as [|[| | |[[] [held|held|ip]]] rest].
    + left. rewrite Part000_wrapped_gate, Part000_gate_no_context by by left. by split.
    + left. run. by split.
    + left. run. by split.
    + left. rewrite Part000_wrapped_gate, Part000_gate_no_context
        by (right; by eexists _, _).
      by split.
    + left. run. by split.
    + left. run. by split.
    + right. exists ip. split; [by eexists _, _|].
      rewrite Part000_wrapped_gate, (Part000_gate_context _ _ _ _ _ ip)
        by by eexists _, _.
      cbv zeta. unfold part000_catch_log.
      destruct (getFault env) as [error|].
      { left. by destruct (isRequestTimeout error). }
      destruct (limitReached _ _); [by left|].
      destruct (Part000.refreshRateBelowOne _dict) eqn:Hrate; [by left|].
      pose proof (refreshRateOrDefault_pos _ Hrate) as Hpos.
      right. destruct (execFault env) as [error|].
      * destruct (isRequestTimeout error); simpl; (split; [done|split; [done|by left]]).
      * simpl. split; [done|split; [done|by right]].
    + left. rewrite Part000_wrapped_gate, Part000_gate_no_context
        by (right; by eexists _, _).
      by split.
    + left. rewrite Part000_wrapped_gate, Part000_gate_no_context
        by (right; by eexists _, _).
      by split.
    + left. rewrite Part000_wrapped_gate, Part000_gate_no_context
        by (right; by eexists _, _).
      by split.
  - intros _dict redisClient value _context env args s. cbv zeta.
    split.
    { rewrite IndexTs_wrapped_gate. cbv zeta. apply Hinv, IndexTs_gate_invocations. }
    destruct args as [|[| | |[[] [held|held|ip]]] rest].
    + left. rewrite IndexTs_wrapped_gate, IndexTs_gate_no_context by by left. by split.
    + left. run. by split.
    + left. run. by split.
    + left. rewrite IndexTs_wrapped_gate, IndexTs_gate_no_context
        by (right; by eexists _, _).
      by split.
    + left. destruct redisClient; run; destruct (value _); by split.
    + left. destruct redisClient; run; destruct (value _); by split.
    + rewrite IndexTs_wrapped_gate, (IndexTs_gate_context _ _ _ _ _ ip)
        by by eexists _, _.
      cbv zeta.
      destruct redisClient as [client|]; [|by left].
      right. exists ip. split; [by eexists _, _|].
      destruct (getFault env) as [error|].
      { left. by destruct (isRequestTimeout error). }
      destruct (limitReached _ _); [by left|].
      right. destruct (execFault env) as [error|].
      * destruct (isRequestTimeout error); simpl; (split; [done|by left]).
      * simpl. split; [done|by right].
    + left. rewrite IndexTs_wrapped_gate, IndexTs_gate_no_context
        by (right; by eexists _, _).
      by split.
    + left. rewrite IndexTs_wrapped_gate, IndexTs_gate_no_context
        by (right; by eexists _, _).
      by split.
    + left. rewrite IndexTs_wrapped_gate, IndexTs_gate_no_context
        by (right; by eexists _, _).
      by split.
Qed.

(** ** Calls that overlap *)

(** The halves of a call with a GnzContext, case by case. *)
Lemma part000_before_context _dict _context env args ip s :
  gnzContextArgs ip args →
  let k := Part000.key ip (name _context) (date env) in
  part000BeforeIncrement _dict _context env args s =
  match getFault env with
  | Some error =>
      {| outcome := Throw error; final := s; events := EGet k :: part000_catch_log error |}
  | None =>
      if limitReached (redis_get (epochMs (date env)) k s) (Part000.limitOrDefault _dict)
      then {| outcome := Throw rateLimitExceeded; final := s; events := [EGet k] |}
      else if Part000.refreshRateBelowOne _dict
      then {| outcome := Throw Part000.refreshRateError; final := s;
              events := [EGet k; ELog Part000.redisHint] |}
      else {| outcome := Normal tt; final := s; events := [EGet k] |}
  end.
Proof.
  intros ([g [held|held|ip']] & rest & -> & Hg & Hip);
    unfold sourceIp in Hip; simplify_eq/=.
  destruct env as [d [ge|] ee]; cbv zeta; unfold part000_catch_log.
  { run_halves. destruct ge as [? []| |]; reflexivity. }
  run_halves.
  destruct (limitReached _ _); [reflexivity|].
  destruct (Part000.refreshRateBelowOne _dict); reflexivity.
Qed.

Lemma part000_from_context _dict value _context env args ip s :
  gnzContextArgs ip args →
  let k := Part000.key ip (name _context) (date env) in
  let ttl := Part000.refreshRateOrDefault _dict in
  part000FromIncrement _dict value _context env args s =
  match execFault env with
  | Some error =>
      {| outcome := Throw error; final := s;
         events := EMulti k k ttl :: part000_catch_log error |}
  | None =>
      {| outcome := value args;
         final := redis_expire (epochMs (date env)) k ttl
                    (redis_incr (epochMs (date env)) k s);
         events := [EMulti k k ttl; EInvoke args] |}
  end.
Proof.
  intros ([g [held|held|ip']] & rest & -> & Hg & Hip);
    unfold sourceIp in Hip; simplify_eq/=.
  destruct env as [d ge [ee|]]; cbv zeta; unfold part000_catch_log.
  { run_halves. destruct ee as [? []| |]; reflexivity. }
  run_halves. destruct (value _); reflexivity.
Qed.

Lemma indexTs_before_context _dict client env args ip s :
  gnzContextArgs ip args →
  let k := IndexTs.key ip (date env) in
  indexTsBeforeIncrement _dict (Some client) env args s =
  match getFault env with
  | Some error =>
      if isRequestTimeout error
      then {| outcome := Throw error; final := s; events := [EGet k] |}
      else {| outcome := Normal false; final := s;
              events := [EGet k; ELog IndexTs.redisHint; ELogError error] |}
  | None =>
      if limitReached (redis_get (epochMs (date env)) k s) (IndexTs.limitOrDefault _dict)
      then {| outcome := Throw rateLimitExceeded; final := s; events := [EGet k] |}
      else {| outcome := Normal true; final := s; events := [EGet k] |}
  end.
Proof.
  intros ([g [held|held|ip']] & rest & -> & Hg & Hip);
    unfold sourceIp in Hip; simplify_eq/=.
  destruct env as [d [ge|] ee]; cbv zeta.
  { run_halves. destruct ge as [? []| |]; reflexivity. }
  run_halves. destruct (limitReached _ _); reflexivity.
Qed.

Lemma indexTs_from_context value env args ip s :
  gnzContextArgs ip args →
  let k := IndexTs.key ip (date env) in
  indexTsFromIncrement value env args true s =
  match execFault env with
  | Some error =>
      if isRequestTimeout error
      then {| outcome := Throw error; final := s; events := [EMulti k k 59] |}
      else {| outcome := value args; final := s;
              events := [EMulti k k 59; ELog IndexTs.redisHint; ELogError error;
                         EInvoke args] |}
  | None =>
      {| outcome := value args;
         final := redis_expire (epochMs (date env)) k 59
                    (redis_incr (epochMs (date env)) k s);
         events := [EMulti k k 59; EInvoke args] |}
  end.
Proof.
  intros ([g [held|held|ip']] & rest & -> & Hg & Hip);
    unfold sourceIp in Hip; simplify_eq/=.
  destruct env as [d ge [ee|]]; cbv zeta.
  { run_halves. destruct ee as [? []| |]; try reflexivity; destruct (value _); reflexivity. }
  run_halves. destruct (value _); reflexivity.
Qed.

(** The two halves, one after the other, are the wrapped function. *)
Lemma part000_halves_compose _dict client value _context env args s :
  Part000.wrapped _dict client value _context env args s
  = (part000BeforeIncrement _dict _context env args;;
     part000FromIncrement _dict value _context env args) s.
Proof.
  destruct args as [|[| | |[[] [held|held|ip]]] rest].
  1-6, 8-10: run_halves; reflexivity.
  assert (gnzContextArgs ip
            (JsObj {| isGnzContext := true; requestContext := Http ip |} :: rest)) as Hctx
    by by eexists _, _.
  rewrite Part000_wrapped_gate, (Part000_gate_context _ _ _ _ _ ip) by done.
  cbv [mbind M_bind]. cbv zeta.
  rewrite (part000_before_context _ _ _ _ ip) by done. cbv zeta.
  destruct (getFault env) as [error|]; [reflexivity|].
  destruct (limitReached _ _); [reflexivity|].
  destruct (Part000.refreshRateBelowOne _dict); [reflexivity|].
  cbv [outcome final events].
  rewrite (part000_from_context _ _ _ _ _ ip) by done. cbv zeta.
  destruct (execFault env) as [error|]; reflexivity.
Qed.

Lemma indexTs_halves_compose _dict redisClient value _context env args s :
  IndexTs.wrapped _dict redisClient value _context env args s
  = (goesOn ← indexTsBeforeIncrement _dict redisClient env args;
     indexTsFromIncrement value env args goesOn) s.
Proof.
  destruct args as [|[| | |[[] [held|held|ip]]] rest].
  1, 4, 8-10: run_halves; destruct (value _); reflexivity.
  1-2: run_halves; reflexivity.
  1-2: destruct redisClient; run_halves; destruct (value _); reflexivity.
  destruct redisClient as [client|];
    [|run_halves; destruct (value _); reflexivity].
  assert (gnzContextArgs ip
            (JsObj {| isGnzContext := true; requestContext := Http ip |} :: rest)) as Hctx
    by by eexists _, _.
  rewrite IndexTs_wrapped_gate, (IndexTs_gate_context _ _ _ _ _ ip) by done.
  cbv [mbind M_bind]. cbv zeta.
  rewrite (indexTs_before_context _ _ _ _ ip) by done. cbv zeta.
  destruct (getFault env) as [error|].
  { destruct (isRequestTimeout error); [reflexivity|].
    run_halves. destruct (value _); reflexivity. }
  destruct (limitReached _ _); [reflexivity|].
  cbv [outcome final events].
  rewrite (indexTs_from_context _ _ _ ip) by done. cbv zeta.
  destruct (execFault env) as [error|]; [|reflexivity].
  destruct (isRequestTimeout error); reflexivity.
Qed.

(** X14: the limit is not kept between calls that overlap.  A call is its
    first half followed by its second half; when the first halves of two
    calls both reach the store before the increment of either, each read
    finds the store as it was, and if each finds its counter below the
    limit, both calls are admitted and both increment, whatever the limit:
    with a limit of 1 and no counter, both methods run. *)
Theorem overlapping_calls_are_both_admitted :
  (∀ _dict client value _context env args s,
     Part000.wrapped _dict client value _context env args s
     = (part000BeforeIncrement _dict _context env args;;
        part000FromIncrement _dict value _context env args) s)
  ∧ (∀ _dict redisClient value _context env args s,
     IndexTs.wrapped _dict redisClient value _context env args s
     = (goesOn ← indexTsBeforeIncrement _dict redisClient env args;
        indexTsFromIncrement value env args goesOn) s)
  ∧ (∀ _dict value _context dA dB argsA argsB ip s,
     let L := Part000.limitOrDefault _dict in
     let ttl := Part000.refreshRateOrDefault _dict in
     let kA := Part000.key ip (name _context) dA in
     let kB := Part000.key ip (name _context) dB in
     gnzContextArgs ip argsA →
     gnzContextArgs ip argsB →
     Part000.refreshRateBelowOne _dict = false →
     limitReached (redis_get (epochMs dA) kA s) L = false →
     limitReached (redis_get (epochMs dB) kB s) L = false →
     let a1 := part000BeforeIncrement _dict _context (healthy dA) argsA s in
     let b1 := part000BeforeIncrement _dict _context (healthy dB) argsB (final a1) in
     let a2 := part000FromIncrement _dict value _context (healthy dA) argsA (final b1) in
     let b2 := part000FromIncrement _dict value _context (healthy dB) argsB (final a2) in
     a1 = {| outcome := Normal tt; final := s; events := [EGet kA] |}
     ∧ b1 = {| outcome := Normal tt; final := s; events := [EGet kB] |}
     ∧ outcome a2 = value argsA
     ∧ events a2 = [EMulti kA kA ttl; EInvoke argsA]
     ∧ outcome b2 = value argsB
     ∧ events b2 = [EMulti kB kB ttl; EInvoke argsB])
  ∧ (∀ _dict client value dA dB argsA argsB ip s,
     let L := IndexTs.limitOrDefault _dict in
     let kA := IndexTs.key ip dA in
     let kB := IndexTs.key ip dB in
     gnzContextArgs ip argsA →
     gnzContextArgs ip argsB →
     limitReached (redis_get (epochMs dA) kA s) L = false →
     limitReached (redis_get (epochMs dB) kB s) L = false →
     let a1 := indexTsBeforeIncrement _dict (Some client) (healthy dA) argsA s in
     let b1 := indexTsBeforeIncrement _dict (Some client) (healthy dB) argsB (final a1) in
     let a2 := indexTsFromIncrement value (healthy dA) argsA true (final b1) in
     let b2 := indexTsFromIncrement value (healthy dB) argsB true (final a2) in
     a1 = {| outcome := Normal true; final := s; events := [EGet kA] |}
     ∧ b1 = {| outcome := Normal true; final := s; events := [EGet kB] |}
     ∧ outcome a2 = value argsA
     ∧ events a2 = [EMulti kA kA 59; EInvoke argsA]
     ∧ outcome b2 = value argsB
     ∧ events b2 = [EMulti kB kB 59; EInvoke argsB]).
Proof.
  split; [|split; [|split]].
  - intros. apply part000_halves_compose.
  - intros. apply indexTs_halves_compose.
  - intros _dict value _context dA dB argsA argsB ip s L ttl kA kB
      HctxA HctxB Hrate HlimA HlimB.
    subst L ttl kA kB. cbv zeta.
    assert (part000BeforeIncrement _dict _context (healthy dA) argsA s
            = {| outcome := Normal tt; final := s;
                 events := [EGet (Part000.key ip (name _context) dA)] |}) as Ha1.
    { rewrite (part000_before_context _ _ _ _ ip) by done. cbv zeta. simpl.
      by rewrite HlimA, Hrate. }
    rewrite Ha1. simpl.
    assert (part000BeforeIncrement _dict _context (healthy dB) argsB s
            = {| outcome := Normal tt; final := s;
                 events := [EGet (Part000.key ip (name _context) dB)] |}) as Hb1.
    { rewrite (part000_before_context _ _ _ _ ip) by done. cbv zeta. simpl.
      by rewrite HlimB, Hrate. }
    rewrite Hb1. simpl.
    rewrite !(part000_from_context _ _ _ _ _ ip) by done.
    by repeat split.
  - intros _dict client value dA dB argsA argsB ip s L kA kB HctxA HctxB HlimA HlimB.
    subst L kA kB. cbv zeta.
    assert (indexTsBeforeIncrement _dict (Some client) (healthy dA) argsA s
            = {| outcome := Normal true; final := s;
                 events := [EGet (IndexTs.key ip dA)] |}) as Ha1.
    { rewrite (indexTs_before_context _ _ _ _ ip) by done. cbv zeta. simpl.
      by rewrite HlimA. }
    rewrite Ha1. simpl.
    assert (indexTsBeforeIncrement _dict (Some client) (healthy dB) argsB s
            = {| outcome := Normal true; final := s;
                 events := [EGet (IndexTs.key ip dB)] |}) as Hb1.
    { rewrite (indexTs_before_context _ _ _ _ ip) by done. cbv zeta. simpl.
      by rewrite HlimB. }
    rewrite Hb1. simpl.
    rewrite !(indexTs_from_context _ _ _ ip) by done.
    by repeat split.
Qed.

Lemma overlapping_calls_are_both_admitted_witness :
  let d := Sample.utc 0 in
  let a1 := part000BeforeIncrement (Sample.withLimit 1) Sample.hello (healthy d)
              Sample.args ∅ in
  let b1 := part000BeforeIncrement (Sample.withLimit 1) Sample.hello (healthy d)
              Sample.args (final a1) in
  let a2 := part000FromIncrement (Sample.withLimit 1) Sample.method Sample.hello
              (healthy d) Sample.args (final b1) in
  let b2 := part000FromIncrement (Sample.withLimit 1) Sample.method Sample.hello
              (healthy d) Sample.args (final a2) in
  outcome a2 = Sample.method Sample.args ∧ outcome b2 = Sample.method Sample.args.
Proof.
  cbv zeta.
  destruct overlapping_calls_are_both_admitted as (_ & _ & Hpart & _).
  destruct (Hpart (Sample.withLimit 1) Sample.method Sample.hello
              (Sample.utc 0) (Sample.utc 0) Sample.args Sample.args Sample.ip ∅)
    as (_ & _ & Ha2 & _ & Hb2 & _).
  - by eexists _, _.
  - by eexists _, _.
  - reflexivity.
  - vm_compute. reflexivity.
  - vm_compute. reflexivity.
  - split; [exact Ha2|exact Hb2].
Defined.
